(** * Roblox Gamepass Proxy: the rate limiter and the proxy handlers of
      [server.js], embedded in Rocq.

    The program is an Express application with one piece of shared mutable
    state, the [requestCounts] map, and four route handlers.  The embedding
    makes the effects of a handler explicit:

    - the shared [requestCounts] map is threaded through every call
      (a [gmap] from client address to the array of recorded timestamps);
    - [Date.now()] is an input of the call that reads it;
    - the single [await axios.get(...)] of a handler is answered by an
      upstream oracle, and the outbound calls, the lines written with
      [console.error] and the response written on [res] are collected in
      the outcome of the handler;
    - a handler can throw outside its [try], when [parseInt] converts a
      [limit] that is an object with a [toString] key: the outcome then
      records the exception in place of a response.

    Timestamps are millisecond counts and are modelled as [Z]; JavaScript
    numbers are exact on integers of magnitude below 2^53, which is where
    [Date.now()] and the quantities computed from it live.  The number
    read from [limit] has no such bound and is modelled as the double it
    is: an integer rounded to the nearest double, an infinity or [NaN]. *)

From Stdlib Require Import Ascii ZArith Lia.
From stdpp Require Import gmap strings list fin_maps pretty sorting.

Local Open Scope Z_scope.

(* [set_solver] clears hypotheses that are already gone. *)
#[local] Set Warnings "-clear-no-such-hyp".

(** ** The rate limiter (server.js, lines 12-31) *)

Module RateLimiter.

(** [const RATE_LIMIT = 100], compared with an array length. *)
Definition RATE_LIMIT : nat := 100.

(** [const RATE_WINDOW = 60000]. *)
Definition RATE_WINDOW : Z := 60000.

(** The predicate of the [filter] callback, [time => now - time < RATE_WINDOW]. *)
Definition recent (now time : Z) : Prop := now - time < RATE_WINDOW.

#[global] Instance recent_dec now time : Decision (recent now time).
Proof. unfold recent. apply _. Defined.

(** [requestCounts.get(ip) || []]: a stored value is always an array, which
    is truthy, so the default is taken exactly when the key is missing. *)
Definition get_or_empty (ip : string) (requestCounts : gmap string (list Z))
  : list Z :=
  default [] (requestCounts !! ip).

(** [checkRateLimit(ip)], with the value read from [Date.now()] and the
    [requestCounts] map as explicit inputs; the result is the returned
    boolean and the map after the call.  [filter] builds a fresh array, so
    the stored array is never modified in place; the only write to the map
    is the [set] on the admitting path. *)
Definition checkRateLimit (ip : string) (now : Z)
    (requestCounts : gmap string (list Z)) : bool * gmap string (list Z) :=
  let userRequests := get_or_empty ip requestCounts in
  let recentRequests := filter (recent now) userRequests in
  if decide (RATE_LIMIT ≤ length recentRequests)%nat
  then (false, requestCounts)
  else (true, <[ip := recentRequests ++ [now]]> requestCounts).

(** A sequence of calls, each with the client address and the clock value
    it observes; returns the decisions in order and the final map. *)
Fixpoint run (calls : list (string * Z)) (requestCounts : gmap string (list Z))
  : list bool * gmap string (list Z) :=
  match calls with
  | [] => ([], requestCounts)
  | (ip, now) :: rest =>
      let '(ok, m) := checkRateLimit ip now requestCounts in
      let '(oks, m') := run rest m in
      (ok :: oks, m')
  end.

(** The states the server can be in: those produced from the empty map of
    line 13 by some sequence of calls. *)
Definition reachable (m : gmap string (list Z)) : Prop :=
  ∃ calls, (run calls ∅).2 = m.

End RateLimiter.

(** ** JavaScript values that the handlers touch *)

Module Js.

#[local] Set Warnings "-register-all".

(** What the query-string parser of Express puts under a key of [req.query]:
    a string, an array ([limit=1&limit=2]) or a nested object
    ([limit[a]=1]).  A key that is absent reads as [undefined], which is
    [None] of [option qval]. *)
Inductive qval : Type :=
  | QString (s : string)
  | QArray (items : list qval)
  | QObject (fields : list (string * qval)).

(** Values of outbound parameters and of JSON bodies.  [JNumber] holds a
    finite integer; the numbers that are not finite have their own
    constructors. *)
Inductive jsval : Type :=
  | JUndefined
  | JBool (b : bool)
  | JNumber (n : Z)
  | JNaN
  | JInfinity (negative : bool)
  | JString (s : string)
  | JArray (items : list jsval)
  | JObject (fields : list (string * jsval)).

(** The exceptions the handlers can meet: converting an object to a
    primitive value fails with a [TypeError]. *)
Inductive exception : Type :=
  | TypeError.

(** How an evaluation completes: with a value, or by throwing. *)
Inductive completion (A : Type) : Type :=
  | Normal (a : A)
  | Throw (e : exception).

Arguments Normal {A} a.
Arguments Throw {A} e.

(** The numbers [parseInt] returns: [NaN], an infinity, or a double whose
    value is the integer [n]. *)
Inductive number : Type :=
  | NaN
  | Infinity (negative : bool)
  | Finite (n : Z).

Definition of_number (x : number) : jsval :=
  match x with
  | NaN => JNaN
  | Infinity negative => JInfinity negative
  | Finite n => JNumber n
  end.

Fixpoint of_qval (q : qval) : jsval :=
  match q with
  | QString s => JString s
  | QArray items => JArray (map of_qval items)
  | QObject fields => JObject (map (λ kv, (kv.1, of_qval kv.2)) fields)
  end.

Definition of_query (v : option qval) : jsval :=
  match v with
  | None => JUndefined
  | Some q => of_qval q
  end.

(** Truthiness, as used by [||]: of the values above only [undefined],
    [false], [0], [NaN] and the empty string are falsy. *)
Definition truthy (v : jsval) : bool :=
  match v with
  | JUndefined => false
  | JBool b => b
  | JNumber n => negb (n =? 0)
  | JNaN => false
  | JInfinity _ => true
  | JString s => negb (String.eqb s "")
  | JArray _ | JObject _ => true
  end.

(** [a || b]. *)
Definition js_or (a b : jsval) : jsval := if truthy a then a else b.

(** Whether the object has a key [name] of its own. *)
Definition has_own (name : string) (fields : list (string * qval)) : bool :=
  existsb (λ kv, String.eqb kv.1 name) fields.

(** [ToString] on a query value.  A string is itself.  An array is its
    elements, each converted in turn, joined with a comma.  An object is
    converted through its [toString]: the one of [Object.prototype] gives
    ["[object Object]"], but a key [toString] of the object itself (from
    [limit[toString]=x]) hides it with a value that cannot be called; the
    conversion then falls back on [valueOf], which gives no primitive
    value, and throws a [TypeError]. *)
Fixpoint qToString (q : qval) : completion string :=
  match q with
  | QString s => Normal s
  | QArray items =>
      (fix join (l : list qval) : completion string :=
         match l with
         | [] => Normal ""%string
         | x :: rest =>
             match qToString x with
             | Throw e => Throw e
             | Normal sx =>
                 match rest with
                 | [] => Normal sx
                 | _ :: _ =>
                     match join rest with
                     | Throw e => Throw e
                     | Normal sr => Normal (sx +:+ String "," sr)%string
                     end
                 end
             end
         end) items
  | QObject fields =>
      if has_own "toString" fields then Throw TypeError
      else Normal "[object Object]"%string
  end.

Definition ToString (v : option qval) : completion string :=
  match v with
  | None => Normal "undefined"%string
  | Some q => qToString q
  end.

(** *** [parseInt] with no radix argument (ECMA-262, 19.2.5), on a string

    Strings are sequences of code units below 256; of the white space and
    line terminator code points those are TAB, LF, VT, FF, CR, SP and
    NBSP.  The result is [NaN] when no digit is read, and otherwise the
    double nearest to the integer that was read (ties to even), an
    infinity when that is out of range.  [-0] is [Finite 0] here: both
    zeros are falsy. *)

(** The double nearest to the integer [n]: [n] itself below 2^53, beyond
    that the nearest multiple of the spacing of the doubles around [n]
    (ties to the even one), and an infinity from 2^1024 on.  The standard
    lets an implementation approximate after the 20th significant digit;
    this is the correctly rounded result, which is what V8 gives. *)
Definition round_to_double (n : Z) : number :=
  let a := Z.abs n in
  if a <? 2 ^ 53 then Finite n
  else
    let e := Z.log2 a - 52 in
    let q := a / 2 ^ e in
    let r := a mod 2 ^ e in
    let half := 2 ^ (e - 1) in
    let q' := if (half <? r) || ((r =? half) && Z.odd q) then q + 1 else q in
    let v := q' * 2 ^ e in
    if 2 ^ 1024 <=? v then Infinity (n <? 0) else Finite (Z.sgn n * v).

Definition is_white_space (c : ascii) : bool :=
  match N_of_ascii c with
  | 9 | 10 | 11 | 12 | 13 | 32 | 160 => true
  | _ => false
  end%N.

Fixpoint trim_start (s : string) : string :=
  match s with
  | String c rest => if is_white_space c then trim_start rest else s
  | EmptyString => EmptyString
  end.

(** The value of a digit: [0-9], then [a-z] and [A-Z] for 10 to 35. *)
Definition digit_value (c : ascii) : option Z :=
  let n := Z.of_N (N_of_ascii c) in
  if (48 <=? n) && (n <=? 57) then Some (n - 48)
  else if (97 <=? n) && (n <=? 122) then Some (n - 87)
  else if (65 <=? n) && (n <=? 90) then Some (n - 55)
  else None.

Definition radix_digit (R : Z) (c : ascii) : option Z :=
  match digit_value c with
  | Some d => if d <? R then Some d else None
  | None => None
  end.

(** Reads the longest prefix of radix-[R] digits; [acc] is [None] until a
    first digit has been read. *)
Fixpoint parse_digits (R : Z) (s : string) (acc : option Z) : option Z :=
  match s with
  | String c rest =>
      match radix_digit R c with
      | Some d => parse_digits R rest (Some (default 0 acc * R + d))
      | None => acc
      end
  | EmptyString => acc
  end.

Definition strip_sign (s : string) : Z * string :=
  match s with
  | String "-" rest => (-1, rest)
  | String "+" rest => (1, rest)
  | _ => (1, s)
  end.

Definition strip_prefix (s : string) : Z * string :=
  match s with
  | String "0" (String "x" rest) | String "0" (String "X" rest) => (16, rest)
  | _ => (10, s)
  end.

Definition parseInt (inputString : string) : number :=
  let '(sign, S1) := strip_sign (trim_start inputString) in
  let '(R, S2) := strip_prefix S1 in
  match parse_digits R S2 None with
  | Some mathInt => round_to_double (sign * mathInt)
  | None => NaN
  end.

(** [x || d] for a number [x]: [NaN] and [0] are falsy. *)
Definition or_default (x : number) (d : Z) : number :=
  match x with
  | NaN => Finite d
  | Infinity _ => x
  | Finite n => if decide (n = 0) then Finite d else x
  end.

(** [Math.min(x, c)]. *)
Definition math_min (x : number) (c : Z) : number :=
  match x with
  | NaN => NaN
  | Infinity false => Finite c
  | Infinity true => x
  | Finite n => Finite (Z.min n c)
  end.

(** [x || d] for an integer [x] that may be [undefined]: [undefined] and
    [0] are falsy. *)
Definition number_or (x : option Z) (d : Z) : Z :=
  match x with
  | Some n => if decide (n = 0) then d else n
  | None => d
  end.

End Js.

Import Js.

Import RateLimiter.

(** ** The route handlers (server.js, lines 33-150) *)

Module Proxy.

(** The parts of an Express request that the handlers read. *)
Record Request : Type := {
  req_ip : string;
  req_params : gmap string string;
  req_query : gmap string qval
}.

(** An outbound [axios.get(url, { params, headers })]. *)
Record Outbound : Type := {
  url : string;
  params : list (string * jsval);
  headers : list (string * string)
}.

(** The error a rejected [axios.get] throws: [error.message] and, when the
    upstream answered, [error.response.status]. *)
Record AxiosError : Type := {
  message : string;
  response_status : option Z
}.

(** How the awaited call settles: with [response.data] or with an error. *)
Inductive AxiosResult : Type :=
  | Resolved (data : jsval)
  | Rejected (error : AxiosError).

(** How a handler ends: it writes a response, the status given to
    [res.status] (200 when it is not called) and the value given to
    [res.json]; or it throws outside its [try], and its promise rejects
    with nothing written on [res]. *)
Inductive Ending : Type :=
  | Responds (status : Z) (body : jsval)
  | Throws (error : exception).

(** Everything a handler does: the [requestCounts] map it leaves, the way
    it ends, the outbound calls it issues and the lines it writes with
    [console.error] (one list of arguments per line). *)
Record Outcome : Type := {
  counts : gmap string (list Z);
  ending : Ending;
  calls : list Outbound;
  console : list (list string)
}.

(** A path parameter inside a template literal. *)
Definition param_string (req : Request) (name : string) : string :=
  default "undefined"%string (req_params req !! name).

(** A path parameter as a value. *)
Definition param_value (req : Request) (name : string) : jsval :=
  match req_params req !! name with
  | Some s => JString s
  | None => JUndefined
  end.

(** [error.response?.status || 500]. *)
Definition status_or_500 (error : AxiosError) : Z :=
  number_or (response_status error) 500.

(** [Math.min(parseInt(req.query.limit) || 50, 100)], lines 86 and 123:
    [parseInt] first converts its argument to a string, which can throw. *)
Definition effective_limit (limit : option qval) : completion number :=
  match ToString limit with
  | Throw e => Throw e
  | Normal inputString =>
      Normal (math_min (or_default (parseInt inputString) 50) 100)
  end.

(** [app.get('/')], lines 34-44. *)
Definition health (requestCounts : gmap string (list Z)) : Outcome :=
  {| counts := requestCounts;
     ending := Responds 200 (JObject
       [("status", JString "online");
        ("message", JString "Roblox Gamepass Proxy API");
        ("endpoints", JObject
           [("gamepassDetails", JString "/api/gamepasses/:id/details");
            ("userInventory", JString "/api/users/:userId/inventory/gamepasses");
            ("creatorGamepasses", JString "/api/users/:userId/gamepasses")])]);
     calls := [];
     console := [] |}.

(** [app.get('/api/gamepasses/:id/details')], lines 47-74. *)
Definition gamepass_details (now : Z) (upstream : Outbound → AxiosResult)
    (req : Request) (requestCounts : gmap string (list Z)) : Outcome :=
  let ip := req_ip req in
  let '(admitted, requestCounts) := checkRateLimit ip now requestCounts in
  if negb admitted then
    {| counts := requestCounts;
       ending := Responds 429 (JObject [("error", JString "Rate limit exceeded")]);
       calls := []; console := [] |}
  else
    let gamepassId := param_string req "id" in
    let call :=
      {| url := ("https://apis.roblox.com/game-passes/v1/game-passes/"
                 +:+ gamepassId +:+ "/details")%string;
         params := [];
         headers := [("User-Agent", "RobloxGamepassProxy/1.0")] |} in
    match upstream call with
    | Resolved data =>
        {| counts := requestCounts; ending := Responds 200 data;
           calls := [call]; console := [] |}
    | Rejected error =>
        {| counts := requestCounts;
           ending := Responds (status_or_500 error)
             (JObject [("error", JString "Failed to fetch gamepass details");
                       ("message", JString (message error))]);
           calls := [call];
           console := [["Error fetching gamepass details:"; message error]] |}
    end.

(** [app.get('/api/users/:userId/inventory/gamepasses')], lines 77-111.
    Line 86 is outside the [try]: when the conversion of [limit] throws,
    the handler ends there, after the limiter has recorded the request
    and before any call or response. *)
Definition user_inventory (now : Z) (upstream : Outbound → AxiosResult)
    (req : Request) (requestCounts : gmap string (list Z)) : Outcome :=
  let ip := req_ip req in
  let '(admitted, requestCounts) := checkRateLimit ip now requestCounts in
  if negb admitted then
    {| counts := requestCounts;
       ending := Responds 429 (JObject [("error", JString "Rate limit exceeded")]);
       calls := []; console := [] |}
  else
    let userId := param_string req "userId" in
    let page := js_or (of_query (req_query req !! "page")) (JNumber 1) in
    match effective_limit (req_query req !! "limit") with
    | Throw e =>
        {| counts := requestCounts; ending := Throws e;
           calls := []; console := [] |}
    | Normal limit =>
        let call :=
          {| url := ("https://inventory.roblox.com/v1/users/"
                     +:+ userId +:+ "/assets/collectibles")%string;
             params := [("assetType", JString "GamePass");
                        ("limit", of_number limit);
                        ("cursor", js_or (of_query (req_query req !! "cursor"))
                                         (JString ""))];
             headers := [("User-Agent", "RobloxGamepassProxy/1.0")] |} in
        match upstream call with
        | Resolved data =>
            {| counts := requestCounts; ending := Responds 200 data;
               calls := [call]; console := [] |}
        | Rejected error =>
            {| counts := requestCounts;
               ending := Responds (status_or_500 error)
                 (JObject [("error", JString "Failed to fetch user inventory");
                           ("message", JString (message error))]);
               calls := [call];
               console := [["Error fetching user inventory:"; message error]] |}
        end
    end.

(** [app.get('/api/users/:userId/gamepasses')], lines 114-150.  Line 123
    is outside the [try], as line 86 above. *)
Definition creator_gamepasses (now : Z) (upstream : Outbound → AxiosResult)
    (req : Request) (requestCounts : gmap string (list Z)) : Outcome :=
  let ip := req_ip req in
  let '(admitted, requestCounts) := checkRateLimit ip now requestCounts in
  if negb admitted then
    {| counts := requestCounts;
       ending := Responds 429 (JObject [("error", JString "Rate limit exceeded")]);
       calls := []; console := [] |}
  else
    let userId := param_value req "userId" in
    let cursor := js_or (of_query (req_query req !! "cursor")) (JString "") in
    match effective_limit (req_query req !! "limit") with
    | Throw e =>
        {| counts := requestCounts; ending := Throws e;
           calls := []; console := [] |}
    | Normal limit =>
        let call :=
          {| url := "https://apis.roblox.com/toolbox-service/v1/creations/get-user-creations";
             params := [("userId", userId);
                        ("assetType", JNumber 34);
                        ("limit", of_number limit);
                        ("cursor", cursor);
                        ("isArchived", JBool false)];
             headers := [("User-Agent", "RobloxGamepassProxy/1.0")] |} in
        match upstream call with
        | Resolved data =>
            {| counts := requestCounts; ending := Responds 200 data;
               calls := [call]; console := [] |}
        | Rejected error =>
            {| counts := requestCounts;
               ending := Responds (status_or_500 error)
                 (JObject [("error", JString "Failed to fetch creator gamepasses");
                           ("message", JString (message error))]);
               calls := [call];
               console := [["Error fetching creator gamepasses:"; message error]] |}
        end
    end.

(** The four routes registered on [app]. *)
Inductive Route : Type :=
  | HealthCheck
  | GamepassDetails
  | UserInventory
  | CreatorGamepasses.

(** The path each route is registered under (lines 34, 47, 77 and 114). *)
Definition route_path (route : Route) : string :=
  match route with
  | HealthCheck => "/"
  | GamepassDetails => "/api/gamepasses/:id/details"
  | UserInventory => "/api/users/:userId/inventory/gamepasses"
  | CreatorGamepasses => "/api/users/:userId/gamepasses"
  end.

(** The handler Express runs for a request matched by the route. *)
Definition handle (route : Route) (now : Z) (upstream : Outbound → AxiosResult)
    (req : Request) (requestCounts : gmap string (list Z)) : Outcome :=
  match route with
  | HealthCheck => health requestCounts
  | GamepassDetails => gamepass_details now upstream req requestCounts
  | UserInventory => user_inventory now upstream req requestCounts
  | CreatorGamepasses => creator_gamepasses now upstream req requestCounts
  end.

#[global] Instance Route_eq_dec : EqDecision Route.
Proof. solve_decision. Defined.

(** The server over a sequence of requests, each with the route that
    matched it and the clock value its handler reads.  A handler touches
    [requestCounts] only in [checkRateLimit], before its [await], so the
    map a request sees is the one left by the requests that arrived
    before it.  The run is followed up to the first handler that throws:
    its rejected promise is not handled by Express 4 (the version whose
    query parser builds the objects that make the conversion throw), and
    what the process does then is up to Node, which exits from version 15
    on. *)
Fixpoint serve (upstream : Outbound → AxiosResult)
    (trace : list (Route * Request * Z))
    (requestCounts : gmap string (list Z))
  : list Outcome * gmap string (list Z) :=
  match trace with
  | [] => ([], requestCounts)
  | (route, req, now) :: rest =>
      let o := handle route now upstream req requestCounts in
      match ending o with
      | Throws _ => ([o], counts o)
      | Responds _ _ =>
          let '(os, m) := serve upstream rest (counts o) in
          (o :: os, m)
      end
  end.

End Proxy.

Import Proxy.

(** ** Vocabulary of the properties *)

Module Vocabulary.

(** *** About the rate limiter *)

(** No stored array is longer than the quota. *)
Definition bounded (m : gmap string (list Z)) : Prop :=
  ∀ client, (length (get_or_empty client m) ≤ RATE_LIMIT)%nat.

(** Wording of C1: an entry is discarded when it is older than
    [now - 60000], that is when its timestamp lies before that instant. *)
Definition older_than (bound time : Z) : Prop := time < bound.

#[global] Instance older_than_dec bound time : Decision (older_than bound time).
Proof. unfold older_than. apply _. Defined.

Definition C1_as_stated (ip : string) (now : Z) (m : gmap string (list Z))
  : Prop :=
  let remaining :=
    filter (λ time, ¬ older_than (now - 60000) time) (get_or_empty ip m) in
  if decide (100 ≤ length remaining)%nat
  then (checkRateLimit ip now m).1 = false
  else checkRateLimit ip now m = (true, <[ip := remaining ++ [now]]> m).

(** What the code discards: an entry whose age [now - time] has reached
    the window, that is whose timestamp is [now - 60000] or earlier. *)
Definition aged_out (now time : Z) : Prop := time ≤ now - 60000.

#[global] Instance aged_out_dec now time : Decision (aged_out now time).
Proof. unfold aged_out. apply _. Defined.

(** Wording of C2: every call, a rejected one included, changes the stored
    map. *)
Definition C2_as_stated : Prop :=
  ∀ (ip : string) (now : Z) (m : gmap string (list Z)),
    reachable m → (checkRateLimit ip now m).2 ≠ m.

(** The number of timestamps stored for [client] that are inside the
    trailing window of a decision taken at [now]. *)
Definition window_count (client : string) (now : Z)
    (m : gmap string (list Z)) : nat :=
  length (filter (recent now) (get_or_empty client m)).

(** *** About the handlers *)

(** The three endpoints that forward to the upstream. *)
Definition proxy_route (route : Route) : Prop := route ≠ HealthCheck.

(** The two endpoints that take a [limit]. *)
Definition limit_route (route : Route) : Prop :=
  route = UserInventory ∨ route = CreatorGamepasses.


(** The requests of a trace that went to a proxy endpoint. *)
Definition proxy_requests (trace : list (Route * Request * Z))
  : list (Route * Request * Z) :=
  filter (λ e, e.1.1 ≠ HealthCheck) trace.

(** The outcomes of the requests that went to a proxy endpoint. *)
Definition proxy_outcomes (served : list (Route * Request * Z * Outcome))
  : list Outcome :=
  (filter (λ eo, eo.1.1.1 ≠ HealthCheck) served).*2.

(** The values sent under the parameter [name], over all outbound calls. *)
Definition forwarded (name : string) (o : Outcome) : list jsval :=
  c ← calls o; (filter (λ kv, kv.1 = name) (params c)).*2.

(** Wording of C7: a value is numeric when it is an integer written in
    decimal digits, with an optional sign; any other text is non-numeric
    and is said to give the default 50. *)
Definition is_digit (c : ascii) : bool :=
  let n := Z.of_N (N_of_ascii c) in (48 <=? n) && (n <=? 57).

Fixpoint all_digits (s : string) : bool :=
  match s with
  | EmptyString => true
  | String c rest => is_digit c && all_digits rest
  end.

Definition unsigned_integer_text (s : string) : bool :=
  match s with
  | EmptyString => false
  | String _ _ => all_digits s
  end.

Definition integer_text (s : string) : bool :=
  match s with
  | String "-" rest | String "+" rest => unsigned_integer_text rest
  | _ => unsigned_integer_text s
  end.

Definition C7_as_stated : Prop :=
  ∀ (route : Route) (now : Z) (upstream : Outbound → AxiosResult)
    (req : Request) (m : gmap string (list Z)) (s : string),
    limit_route route →
    (checkRateLimit (req_ip req) now m).1 = true →
    req_query req !! "limit" = Some (QString s) →
    integer_text s = false →
    forwarded "limit" (handle route now upstream req m) = [JNumber 50].

(** Wording of C10: a negative integer given as [limit] is sent upstream
    as it is. *)
Definition C10_as_stated : Prop :=
  ∀ (route : Route) (now : Z) (upstream : Outbound → AxiosResult)
    (req : Request) (m : gmap string (list Z)) (n : Z),
    limit_route route →
    (checkRateLimit (req_ip req) now m).1 = true →
    n < 0 →
    req_query req !! "limit" = Some (QString (pretty n)) →
    forwarded "limit" (handle route now upstream req m) = [JNumber n].

(** A text in which no digit follows the leading white space and the
    sign, if any: it holds no number for [parseInt]. *)
Definition no_leading_digit (s : string) : Prop :=
  match (strip_sign (trim_start s)).2 with
  | EmptyString => True
  | String c _ => is_digit c = false
  end.

(** The cursor sent upstream: the query value, or the empty string when
    the key is absent or empty. *)
Definition cursor_or_empty (cursor : option qval) : jsval :=
  match cursor with
  | None | Some (QString "") => JString ""
  | Some q => of_qval q
  end.

(** *** Concrete data for the runs *)

(** A client address and a clock value. *)
Definition ip0 : string := "203.0.113.7".
Definition T0 : Z := 1700000000000.

(** The 99 instants [T0 + 1], ..., [T0 + 99]. *)
Definition after_T0 : list Z := (λ i, T0 + Z.of_nat i) <$> seq 1 99.

(** A request of the client [ip0] with the given path parameters and
    query. *)
Definition request0 (path : list (string * string))
    (query : list (string * qval)) : Request :=
  {| req_ip := ip0; req_params := list_to_map path;
     req_query := list_to_map query |}.

(** The map after the client [ip0] has used its quota at the instant [T0]. *)
Definition quota_used : gmap string (list Z) :=
  (run (replicate 100 (ip0, T0)) ∅).2.

(** An upstream that answers every call with [{"id":123}]. *)
Definition upstream_ok (call : Outbound) : AxiosResult :=
  Resolved (JObject [("id", JNumber 123)]).

(** An upstream that answers every call with HTTP 404. *)
Definition error_404 : AxiosError :=
  {| message := "Request failed with status code 404";
     response_status := Some 404 |}.

Definition upstream_404 (call : Outbound) : AxiosResult := Rejected error_404.

End Vocabulary.

Import Vocabulary.

(** ** Observations on runs and outcomes *)

Module Observations.

(** The clock values of the calls of [client] that were admitted, in a run
    of [calls] that starts from the map [m]. *)
Definition admitted_times (client : string) (calls : list (string * Z))
    (m : gmap string (list Z)) : list Z :=
  (filter (λ cd, cd.1.1 = client ∧ cd.2 = true)
          (zip calls (run calls m).1)).*1.*2.

(** The calls of a run that were admitted, in order. *)
Definition admitted_calls (calls : list (string * Z))
    (m : gmap string (list Z)) : list (string * Z) :=
  (filter (λ cd, cd.2 = true) (zip calls (run calls m).1)).*1.

(** The decisions taken for the calls of [client], in order. *)
Definition decisions_for (client : string) (calls : list (string * Z))
    (m : gmap string (list Z)) : list bool :=
  (filter (λ cd, cd.1.1 = client) (zip calls (run calls m).1)).*2.

(** The calls of [client] alone. *)
Definition calls_of (client : string) (calls : list (string * Z))
  : list (string * Z) :=
  filter (λ c, c.1 = client) calls.

(** The calls to [checkRateLimit] that a sequence of requests makes: one
    per request that goes to a proxy endpoint, with the address of the
    request and the clock value its handler reads. *)
Definition limiter_calls (trace : list (Route * Request * Z))
  : list (string * Z) :=
  (λ e, (req_ip e.1.2, e.2)) <$> proxy_requests trace.

(** Whether the handler issued an outbound call. *)
Definition called (o : Outcome) : bool :=
  match calls o with
  | [] => false
  | _ :: _ => true
  end.

(** The first argument of [console.error] on each proxy endpoint (lines 68,
    105 and 144). *)
Definition log_prefix (route : Route) : string :=
  match route with
  | HealthCheck => ""
  | GamepassDetails => "Error fetching gamepass details:"
  | UserInventory => "Error fetching user inventory:"
  | CreatorGamepasses => "Error fetching creator gamepasses:"
  end.

(** The header every outbound call carries. *)
Definition user_agent : list (string * string) :=
  [("User-Agent", "RobloxGamepassProxy/1.0")].

(** The answer to a client that is over its quota. *)
Definition rate_limited (m : gmap string (list Z)) : Outcome :=
  {| counts := m;
     ending := Responds 429 (JObject [("error", JString "Rate limit exceeded")]);
     calls := []; console := [] |}.

(** Whether the handler threw. *)
Definition threw (o : Outcome) : bool :=
  match ending o with
  | Throws _ => true
  | Responds _ _ => false
  end.

(** A query value that [parseInt] can convert to a string: no object with
    a [toString] key of its own is in the way. *)
Definition converts (limit : option qval) : Prop :=
  ∃ inputString, ToString limit = Normal inputString.

(** A request whose handler gets past the computation of the limit: any
    request to the health check or to the details endpoint, and one whose
    [limit] converts on the two other endpoints. *)
Definition limit_converts (e : Route * Request * Z) : Prop :=
  match e.1.1 with
  | UserInventory | CreatorGamepasses =>
      match ToString (req_query e.1.2 !! "limit") with
      | Normal _ => True
      | Throw _ => False
      end
  | HealthCheck | GamepassDetails => True
  end.

#[global] Instance limit_converts_dec e : Decision (limit_converts e).
Proof.
  unfold limit_converts.
  destruct e.1.1; try apply _;
    destruct (ToString (req_query e.1.2 !! "limit")); apply _.
Defined.

(** A negative number. *)
Definition negative_number (x : number) : Prop :=
  match x with
  | NaN => False
  | Infinity negative => negative = true
  | Finite n => n < 0
  end.

(** A request of one client, to a proxy endpoint, at an instant of the
    window that starts at [w]. *)
Definition in_window_of (ip : string) (w : Z) (e : Route * Request * Z)
  : Prop :=
  proxy_route e.1.1 ∧ req_ip e.1.2 = ip ∧ w ≤ e.2 < w + RATE_WINDOW.

#[global] Instance in_window_of_dec ip w e : Decision (in_window_of ip w e).
Proof. unfold in_window_of, proxy_route. apply _. Defined.

(** A second client address. *)
Definition ip1 : string := "198.51.100.9".

(** 100 requests of [ip0] at the instant [T0]: 40 for the details of a
    gamepass, 30 for an inventory and 30 for the gamepasses of a creator. *)
Definition mixed_trace : list (Route * Request * Z) :=
  replicate 40 (GamepassDetails, request0 [("id", "123")] [], T0)
  ++ replicate 30 (UserInventory, request0 [("userId", "999")] [], T0)
  ++ replicate 30 (CreatorGamepasses, request0 [("userId", "999")] [], T0).

(** [ip0] calls at 0, 10 and 20, and [ip1] at 15. *)
Definition mixed_calls : list (string * Z) :=
  [(ip0, 0); (ip0, 10); (ip1, 15); (ip0, 20)].

(** 150 calls of [ip0] in the same millisecond. *)
Definition burst_calls : list (string * Z) := replicate 150 (ip0, 7).

(** What a stored array looks like: it is not empty and all its timestamps
    are inside the window that ends at its last one. *)
Definition well_stored (l : list Z) : Prop :=
  ∃ t, last l = Some t ∧ Forall (recent t) l.

(** A map in which [ip0] has a full array: one call at 500 and 99 at 1000. *)
Definition full_map : gmap string (list Z) :=
  {[ ip0 := 500 :: replicate 99 1000 ]}.

End Observations.

Import Observations.

(** Splits a proof about a handler into the decision of the limiter; the
    case that contradicts a hypothesis on that decision is closed. *)
Ltac limiter_cases req now m :=
  unfold handle, health, gamepass_details, user_inventory, creator_gamepasses;
  destruct (checkRateLimit (req_ip req) now m) as [[] ?] eqn:?;
  cbn [negb fst snd] in *; try discriminate.

(** Splits on the way the outbound call of the goal settles. *)
Ltac upstream_cases upstream :=
  match goal with
  | |- context [upstream ?c] => destruct (upstream c) eqn:Hsettle
  end.

(** * Properties of the rate limiter *)

Section RateLimiterFacts.

Implicit Types (ip client : string) (now time : Z) (l : list Z).
Implicit Types (m : gmap string (list Z)) (calls : list (string * Z)).

(** The two paths of [checkRateLimit]. *)
Lemma checkRateLimit_reject ip now m :
  (RATE_LIMIT ≤ length (filter (recent now) (get_or_empty ip m)))%nat →
  checkRateLimit ip now m = (false, m).
Proof. intros Hfull. unfold checkRateLimit. by rewrite decide_True. Qed.

Lemma checkRateLimit_admit ip now m :
  (length (filter (recent now) (get_or_empty ip m)) < RATE_LIMIT)%nat →
  checkRateLimit ip now m
  = (true, <[ip := filter (recent now) (get_or_empty ip m) ++ [now]]> m).
Proof.
  intros Hroom. unfold checkRateLimit. rewrite decide_False; [done | lia].
Qed.

Lemma checkRateLimit_false_inv ip now m :
  (checkRateLimit ip now m).1 = false →
  (RATE_LIMIT ≤ length (filter (recent now) (get_or_empty ip m)))%nat
  ∧ (checkRateLimit ip now m).2 = m.
Proof. unfold checkRateLimit. case_decide; simpl; [done | discriminate]. Qed.

Lemma checkRateLimit_true_inv ip now m :
  (checkRateLimit ip now m).1 = true →
  (length (filter (recent now) (get_or_empty ip m)) < RATE_LIMIT)%nat
  ∧ (checkRateLimit ip now m).2
    = <[ip := filter (recent now) (get_or_empty ip m) ++ [now]]> m.
Proof.
  unfold checkRateLimit. case_decide; simpl; [discriminate | split; [lia | done]].
Qed.

Lemma get_or_empty_insert ip l m : get_or_empty ip (<[ip := l]> m) = l.
Proof. unfold get_or_empty. by rewrite lookup_insert_eq. Qed.

Lemma get_or_empty_insert_ne ip client l m :
  ip ≠ client → get_or_empty client (<[ip := l]> m) = get_or_empty client m.
Proof. intros Hne. unfold get_or_empty. by rewrite lookup_insert_ne. Qed.

(** The array stored for [ip] after a call. *)
Lemma get_or_empty_after ip client now m :
  get_or_empty client (checkRateLimit ip now m).2
  = if decide (client = ip ∧ (checkRateLimit ip now m).1 = true)
    then filter (recent now) (get_or_empty ip m) ++ [now]
    else get_or_empty client m.
Proof.
  unfold checkRateLimit. destruct (decide (RATE_LIMIT ≤ _)%nat); simpl.
  - rewrite decide_False; [done | intros [_ ?]; discriminate].
  - destruct (decide (client = ip)) as [->|Hne].
    + rewrite decide_True by done. apply get_or_empty_insert.
    + rewrite decide_False by (intros [? _]; done).
      by apply get_or_empty_insert_ne.
Qed.

(** *** The size invariant: no stored array is longer than the quota *)

Lemma bounded_empty : bounded ∅.
Proof.
  intros client. unfold get_or_empty. rewrite lookup_empty. simpl.
  unfold RATE_LIMIT. lia.
Qed.

Lemma bounded_checkRateLimit ip now m :
  bounded m → bounded (checkRateLimit ip now m).2.
Proof.
  intros Hb client. rewrite get_or_empty_after. case_decide as Hc.
  - destruct Hc as [_ Hadm]. apply checkRateLimit_true_inv in Hadm as [Hlt _].
    rewrite length_app. simpl. lia.
  - apply Hb.
Qed.

Lemma run_cons ip now calls m :
  run ((ip, now) :: calls) m
  = ((checkRateLimit ip now m).1 :: (run calls (checkRateLimit ip now m).2).1,
     (run calls (checkRateLimit ip now m).2).2).
Proof.
  cbn [run]. destruct (checkRateLimit ip now m) as [ok m1]. cbn [fst snd].
  by destruct (run calls m1) as [oks m2].
Qed.

Lemma bounded_run calls m : bounded m → bounded (run calls m).2.
Proof.
  revert m. induction calls as [|[ip now] calls IH]; intros m Hb; [done|].
  rewrite run_cons. simpl. apply IH. by apply bounded_checkRateLimit.
Qed.

Lemma bounded_reachable m : reachable m → bounded m.
Proof. intros [calls <-]. apply bounded_run, bounded_empty. Qed.

(** A filter that keeps as many elements as there are keeps them all. *)
Lemma filter_all_of_length (P : Z → Prop) `{!∀ x, Decision (P x)} l :
  (length l ≤ length (filter P l))%nat → filter P l = l.
Proof.
  induction l as [|x l IH]; [done|].
  rewrite filter_cons. case_decide; simpl; intros Hlen.
  - f_equal. apply IH. lia.
  - pose proof (length_filter P l). lia.
Qed.

(** In a state of the server, a rejected call finds nothing to prune: all
    the stored timestamps of the client are inside the window. *)
Lemma reject_nothing_stale ip now m :
  reachable m → (checkRateLimit ip now m).1 = false →
  filter (recent now) (get_or_empty ip m) = get_or_empty ip m.
Proof.
  intros Hr Hrej. apply checkRateLimit_false_inv in Hrej as [Hfull _].
  apply filter_all_of_length. pose proof (bounded_reachable m Hr ip). lia.
Qed.

(** A filter whose predicate holds throughout keeps the whole list. *)
Lemma filter_all_of_Forall (P : Z → Prop) `{!∀ x, Decision (P x)} l :
  Forall P l → filter P l = l.
Proof.
  induction 1 as [|x l Hx _ IH]; [done|].
  by rewrite filter_cons_True, IH.
Qed.

(** Timestamps of one window of [RATE_WINDOW] milliseconds, the instants
    [w], [w + 1], ..., [w + RATE_WINDOW - 1], are recent for each other. *)
Lemma recent_same_window w now time :
  w ≤ now < w + RATE_WINDOW → w ≤ time < w + RATE_WINDOW → recent now time.
Proof. unfold recent. lia. Qed.

(** Calls of one client inside one window, while the quota lasts: all are
    admitted and each timestamp is appended to the stored array. *)
Lemma run_one_window ip w (ts l0 : list Z) m :
  get_or_empty ip m = l0 →
  Forall (λ t, w ≤ t < w + RATE_WINDOW) (l0 ++ ts) →
  (length (l0 ++ ts) ≤ RATE_LIMIT)%nat →
  (run ((λ t, (ip, t)) <$> ts) m).1 = replicate (length ts) true
  ∧ get_or_empty ip (run ((λ t, (ip, t)) <$> ts) m).2 = l0 ++ ts.
Proof.
  revert l0 m. induction ts as [|t ts IH]; intros l0 m Hget Hwin Hlen.
  { simpl. by rewrite app_nil_r. }
  rewrite fmap_cons, run_cons. cbn [fst snd length replicate].
  apply Forall_app in Hwin as Hparts. destruct Hparts as [Hl0 Hts].
  apply Forall_cons in Hts as [Ht Hts].
  assert (filter (recent t) (get_or_empty ip m) = l0) as Hkeep.
  { rewrite Hget. apply filter_all_of_Forall.
    eapply Forall_impl; [exact Hl0|]. intros x Hx.
    by apply (recent_same_window w). }
  rewrite length_app in Hlen. simpl in Hlen.
  rewrite checkRateLimit_admit by (rewrite Hkeep; lia).
  cbn [fst snd]. rewrite Hkeep.
  destruct (IH (l0 ++ [t]) (<[ip := l0 ++ [t]]> m)) as [IH1 IH2].
  - apply get_or_empty_insert.
  - rewrite <- app_assoc. exact Hwin.
  - rewrite <- app_assoc, length_app. simpl. lia.
  - rewrite IH1, IH2, <- app_assoc. done.
Qed.

End RateLimiterFacts.

(** ** C1: what one call of the limiter computes *)

(** C1, counterexample: after 100 admitted calls at the instant [T0], a call
    exactly 60000 ms later is admitted by the code, because the entries
    whose age is exactly 60000 ms are discarded; they are not older than
    [now - 60000], so the claim as worded keeps them and rejects. *)
Lemma C1_counterexample :
  let m := (run (replicate 100 (ip0, T0)) ∅).2 in
  reachable m
  ∧ (checkRateLimit ip0 (T0 + 60000) m).1 = true
  ∧ ¬ C1_as_stated ip0 (T0 + 60000) m.
Proof.
  split; [by eexists|]. split; [by vm_compute|].
  vm_compute. discriminate.
Qed.

(** C1, as the code has it: for every client, time and map,
    [checkRateLimit] takes the stored sequence (empty if none), discards
    every entry whose timestamp is [now - 60000] or earlier, returns false
    if at least 100 entries remain, and otherwise stores the remaining
    sequence with [now] appended and returns true. *)
Theorem C1_checkRateLimit_behaviour (ip : string) (now : Z)
    (m : gmap string (list Z)) :
  let remaining := filter (λ time, ¬ aged_out now time) (get_or_empty ip m) in
  if decide (100 ≤ length remaining)%nat
  then (checkRateLimit ip now m).1 = false
  else checkRateLimit ip now m = (true, <[ip := remaining ++ [now]]> m).
Proof.
  cbv zeta.
  assert (filter (λ time, ¬ aged_out now time) (get_or_empty ip m)
          = filter (recent now) (get_or_empty ip m)) as ->.
  { apply list_filter_iff. intros time. unfold aged_out, recent, RATE_WINDOW. lia. }
  case_decide as Hfull.
  - by rewrite checkRateLimit_reject.
  - apply checkRateLimit_admit. unfold RATE_LIMIT. lia.
Qed.

(** ** C2: which calls write to the map *)

(** C2, counterexample: after 100 admitted calls at the instant [T0], one
    more call at [T0] is rejected and leaves the map exactly as it was. *)
Lemma C2_counterexample :
  let m := (run (replicate 100 (ip0, T0)) ∅).2 in
  reachable m ∧ checkRateLimit ip0 T0 m = (false, m) ∧ ¬ C2_as_stated.
Proof.
  assert (reachable (run (replicate 100 (ip0, T0)) ∅).2) as Hr by by eexists.
  assert (checkRateLimit ip0 T0 (run (replicate 100 (ip0, T0)) ∅).2
          = (false, (run (replicate 100 (ip0, T0)) ∅).2)) as Hrej
    by by vm_compute.
  split; [exact Hr|]. split; [exact Hrej|].
  intros Hclaim. apply (Hclaim ip0 T0 _ Hr). by rewrite Hrej.
Qed.

(** C2, as the code has it: a call that returns false leaves the stored map
    unchanged; a call that returns true changes it, storing for the client
    the pruned sequence with [now] appended. *)
Theorem C2_only_admission_writes (ip : string) (now : Z)
    (m : gmap string (list Z)) :
  match (checkRateLimit ip now m).1 with
  | false => (checkRateLimit ip now m).2 = m
  | true =>
      (checkRateLimit ip now m).2
      = <[ip := filter (recent now) (get_or_empty ip m) ++ [now]]> m
      ∧ (checkRateLimit ip now m).2 ≠ m
  end.
Proof.
  destruct (checkRateLimit ip now m).1 eqn:Hdec.
  - apply checkRateLimit_true_inv in Hdec as [_ Hm]. split; [done|].
    rewrite Hm. intros Heq.
    assert (get_or_empty ip m
            = filter (recent now) (get_or_empty ip m) ++ [now]) as Hl.
    { rewrite <- Heq at 1. apply get_or_empty_insert. }
    assert (length (filter (recent now) (get_or_empty ip m))
            = length (filter (recent now)
                        (filter (recent now) (get_or_empty ip m) ++ [now])))
      as Hlen by by rewrite <- Hl.
    rewrite filter_app, length_app, list_filter_filter in Hlen.
    rewrite (list_filter_iff (λ a, recent now a ∧ recent now a) (recent now))
      in Hlen by tauto.
    rewrite (filter_cons_True _ now []) in Hlen
      by (unfold recent, RATE_WINDOW; lia).
    simpl in Hlen. lia.
  - by apply checkRateLimit_false_inv in Hdec as [_ Hm].
Qed.

(** ** C3: the quota bounds what is stored *)

(** C3: from the empty map, after any sequence of calls and one more
    decision taken at time [now], no client has more than 100 stored
    timestamps inside the trailing window that ends at [now]. *)
Theorem C3_window_count_within_quota (calls : list (string * Z))
    (ip client : string) (now : Z) :
  (window_count client now (checkRateLimit ip now (run calls ∅).2).2
   ≤ RATE_LIMIT)%nat.
Proof.
  unfold window_count.
  pose proof (bounded_checkRateLimit ip now _
                (bounded_run calls ∅ bounded_empty) client) as Hb.
  pose proof (length_filter (recent now)
                (get_or_empty client (checkRateLimit ip now (run calls ∅).2).2)).
  lia.
Qed.

(** ** C4: the quota inside a window, and after it *)

(** C4: a client starts with no stored state and makes 100 calls whose
    timestamps [t1 :: rest] all lie in one window [w, w + 60000): all 100
    are admitted; a next call at a time of the same window is rejected
    (and changes nothing); a call at a time more than 60000 ms after [t1]
    is admitted. *)
Theorem C4_quota_per_window (ip : string) (w t1 : Z) (rest : list Z)
    (t_next t_late : Z) :
  length (t1 :: rest) = RATE_LIMIT →
  Forall (λ t, w ≤ t < w + RATE_WINDOW) (t1 :: rest) →
  w ≤ t_next < w + RATE_WINDOW →
  t1 + RATE_WINDOW < t_late →
  let '(decisions, m) := run ((λ t, (ip, t)) <$> t1 :: rest) ∅ in
  decisions = replicate RATE_LIMIT true
  ∧ checkRateLimit ip t_next m = (false, m)
  ∧ (checkRateLimit ip t_late m).1 = true.
Proof.
  intros Hlen Hwin Hnext Hlate.
  destruct (run_one_window ip w (t1 :: rest) [] ∅) as [Hdec Hget];
    [done | done | simpl in *; lia |].
  destruct (run _ ∅) as [decisions m]. cbn [fst snd] in *.
  rewrite Hlen in Hdec. simpl in Hget.
  split; [exact Hdec|]. split.
  - apply checkRateLimit_reject. rewrite Hget.
    rewrite filter_all_of_Forall; [lia|].
    eapply Forall_impl; [exact Hwin|]. intros x Hx.
    by apply (recent_same_window w).
  - rewrite checkRateLimit_admit; [done|]. rewrite Hget.
    rewrite filter_cons_False by (unfold recent; lia).
    pose proof (length_filter (recent t_late) rest). simpl in Hlen. lia.
Qed.

(** C4, witness: 100 calls at the instants [T0], [T0 + 1], ..., [T0 + 99],
    a next call at [T0 + 100] and a late call at [T0 + 60001]. *)
Lemma C4_quota_per_window_witness :
  let '(decisions, m) := run ((λ t, (ip0, t)) <$> T0 :: after_T0) ∅ in
  decisions = replicate RATE_LIMIT true
  ∧ checkRateLimit ip0 (T0 + 100) m = (false, m)
  ∧ (checkRateLimit ip0 (T0 + 60001) m).1 = true.
Proof.
  refine (C4_quota_per_window ip0 T0 T0 after_T0 (T0 + 100) (T0 + 60001)
            _ _ _ _).
  - reflexivity.
  - refine (bool_decide_unpack _ _). vm_compute. exact I.
  - unfold RATE_WINDOW. lia.
  - unfold RATE_WINDOW. lia.
Defined.

(** * Properties of the limit computation *)

(** ** [parseInt] reads back an integer written in decimal

    [pretty n] is the decimal numeral of [n], the text that [limit=n] puts
    in the query. *)

Section DecimalNumerals.

Lemma digit_cases (d : N) :
  (d < 10)%N →
  d ∈ [0; 1; 2; 3; 4; 5; 6; 7; 8; 9]%N.
Proof.
  intros Hd.
  assert (d = 0 ∨ d = 1 ∨ d = 2 ∨ d = 3 ∨ d = 4 ∨ d = 5 ∨ d = 6 ∨ d = 7
          ∨ d = 8 ∨ d = 9)%N as Hcases by lia.
  repeat (destruct Hcases as [->|Hcases]; [by repeat constructor|]).
  subst d. by repeat constructor.
Qed.

Lemma radix_digit_pretty (d : N) :
  (d < 10)%N → radix_digit 10 (pretty_N_char d) = Some (Z.of_N d).
Proof.
  intros Hd%digit_cases.
  repeat (apply elem_of_cons in Hd as [->|Hd]; [reflexivity|]).
  by apply elem_of_nil in Hd.
Qed.

(** Reading the numeral of a positive [x] leaves [x] in the accumulator. *)
Lemma parse_digits_pretty_go (x : N) (s : string) :
  (0 < x)%N →
  parse_digits 10 (pretty_N_go x s) None = parse_digits 10 s (Some (Z.of_N x)).
Proof.
  revert s. induction x as [x IH] using (well_founded_induction N.lt_wf_0).
  intros s Hx. rewrite pretty_N_go_step by done.
  pose proof (N.mod_lt x 10 ltac:(done)) as Hr.
  pose proof (N.div_mod x 10 ltac:(done)) as Hqr.
  destruct (decide (x `div` 10 = 0)%N) as [Hq|Hq].
  - rewrite Hq, pretty_N_go_0. cbn [parse_digits].
    rewrite radix_digit_pretty by done. cbn [default]. do 2 f_equal. lia.
  - rewrite IH; [|apply N.div_lt; lia|lia]. cbn [parse_digits].
    rewrite radix_digit_pretty by done. cbn [default]. do 2 f_equal. unfold id. lia.
Qed.

(** The numeral of a positive [x] starts with one of the digits 1 to 9. *)
Lemma pretty_go_head (x : N) (s : string) :
  (0 < x)%N →
  ∃ d rest, (1 ≤ d ≤ 9)%N ∧ pretty_N_go x s = String (pretty_N_char d) rest.
Proof.
  revert s. induction x as [x IH] using (well_founded_induction N.lt_wf_0).
  intros s Hx. rewrite pretty_N_go_step by done.
  pose proof (N.mod_lt x 10 ltac:(done)) as Hr.
  pose proof (N.div_mod x 10 ltac:(done)) as Hqr.
  destruct (decide (x `div` 10 = 0)%N) as [Hq|Hq].
  - rewrite Hq, pretty_N_go_0. exists (x `mod` 10)%N, s. split; [lia|done].
  - apply IH; [apply N.div_lt; lia|lia].
Qed.

(** A text that starts with a digit 1 to 9 has no white space, sign or
    [0x] prefix to remove. *)
Lemma parseInt_leading_digit (d : N) (rest : string) :
  (1 ≤ d ≤ 9)%N →
  parseInt (String (pretty_N_char d) rest)
  = match parse_digits 10 (String (pretty_N_char d) rest) None with
    | Some v => round_to_double (1 * v)
    | None => NaN
    end.
Proof.
  intros Hd.
  assert (d ∈ [1; 2; 3; 4; 5; 6; 7; 8; 9]%N) as Hcases.
  { pose proof (digit_cases d ltac:(lia)) as Hc.
    apply elem_of_cons in Hc as [->|Hc]; [lia|done]. }
  repeat (apply elem_of_cons in Hcases as [->|Hcases]; [reflexivity|]).
  by apply elem_of_nil in Hcases.
Qed.

Lemma parseInt_minus_digit (d : N) (rest : string) :
  (1 ≤ d ≤ 9)%N →
  parseInt (String "-" (String (pretty_N_char d) rest))
  = match parse_digits 10 (String (pretty_N_char d) rest) None with
    | Some v => round_to_double (-1 * v)
    | None => NaN
    end.
Proof.
  intros Hd.
  assert (d ∈ [1; 2; 3; 4; 5; 6; 7; 8; 9]%N) as Hcases.
  { pose proof (digit_cases d ltac:(lia)) as Hc.
    apply elem_of_cons in Hc as [->|Hc]; [lia|done]. }
  repeat (apply elem_of_cons in Hcases as [->|Hcases]; [reflexivity|]).
  by apply elem_of_nil in Hcases.
Qed.

Lemma parseInt_pretty (n : Z) : parseInt (pretty n) = round_to_double n.
Proof.
  destruct n as [|p|p]; [reflexivity| |].
  - change (pretty (Z.pos p)) with (pretty_N_go (N.pos p) "").
    destruct (pretty_go_head (N.pos p) "") as (d & rest & Hd & Hhead); [done|].
    rewrite Hhead, parseInt_leading_digit, <- Hhead by done.
    rewrite parse_digits_pretty_go by done. reflexivity.
  - change (pretty (Z.neg p)) with (String "-" (pretty_N_go (N.pos p) "")).
    destruct (pretty_go_head (N.pos p) "") as (d & rest & Hd & Hhead); [done|].
    rewrite Hhead, parseInt_minus_digit, <- Hhead by done.
    rewrite parse_digits_pretty_go by done. reflexivity.
Qed.

(** A text whose first character is not white space, a sign or a decimal
    digit holds no number: [parseInt] gives [NaN]. *)
Lemma parseInt_no_number (c : ascii) (rest : string) :
  is_white_space c = false → c ≠ "-"%char → c ≠ "+"%char →
  radix_digit 10 c = None →
  parseInt (String c rest) = NaN.
Proof.
  intros Hws Hminus Hplus Hdigit. unfold parseInt. cbn [trim_start].
  rewrite Hws.
  assert (strip_sign (String c rest) = (1, String c rest)) as ->.
  { destruct c as [[] [] [] [] [] [] [] []]; try reflexivity; congruence. }
  assert (strip_prefix (String c rest) = (10, String c rest)) as ->.
  { destruct c as [[] [] [] [] [] [] [] []]; try reflexivity; discriminate. }
  cbn [parse_digits]. by rewrite Hdigit.
Qed.

End DecimalNumerals.

(** * Properties of the rounding to a double *)

Section Rounding.

Lemma round_to_double_exact (n : Z) :
  Z.abs n < 2 ^ 53 → round_to_double n = Finite n.
Proof.
  intros Hn. unfold round_to_double. cbv zeta.
  by destruct (Z.ltb_spec (Z.abs n) (2 ^ 53)); [|lia].
Qed.

(** From 2^53 on, the rounded magnitude is still at least 2^53. *)
Lemma rounded_magnitude (a : Z) (up : bool) :
  2 ^ 53 ≤ a →
  2 ^ 53 ≤ (if up then a / 2 ^ (Z.log2 a - 52) + 1
            else a / 2 ^ (Z.log2 a - 52)) * 2 ^ (Z.log2 a - 52).
Proof.
  intros Ha. set (e := Z.log2 a - 52).
  assert (2 ^ 53 = 9007199254740992) as H53 by reflexivity.
  assert (2 ^ 52 = 4503599627370496) as H52 by reflexivity.
  assert (0 < a) as Hpos by lia.
  destruct (Z.log2_spec a Hpos) as [Hlo _].
  assert (53 ≤ Z.log2 a) as Hlog.
  { rewrite <- (Z.log2_pow2 53) by lia. by apply Z.log2_le_mono. }
  assert (2 ^ Z.log2 a = 2 ^ e * 2 ^ 52) as Hsplit.
  { rewrite <- Z.pow_add_r by lia. f_equal. lia. }
  assert (2 ≤ 2 ^ e) as He.
  { change 2 with (2 ^ 1) at 1. apply Z.pow_le_mono_r; lia. }
  assert (2 ^ 52 ≤ a / 2 ^ e) as Hq.
  { apply Z.div_le_lower_bound; lia. }
  destruct up; nia.
Qed.

(** The limit computed from an integer above 100 is 100, however large
    the integer is. *)
Lemma limit_of_large (n : Z) :
  100 < n → math_min (or_default (round_to_double n) 50) 100 = Finite 100.
Proof.
  intros Hn. unfold round_to_double. cbv zeta.
  destruct (Z.ltb_spec (Z.abs n) (2 ^ 53)) as [Hsmall|Hbig].
  - cbn [or_default]. rewrite decide_False by lia. cbn [math_min].
    f_equal. lia.
  - rewrite Z.abs_eq in * by lia.
    match goal with
    | |- context [2 ^ 1024 <=? ?q * _] =>
        match q with
        | if ?c then _ else _ => pose proof (rounded_magnitude n c Hbig) as Hv
        end
    end.
    assert (2 ^ 53 = 9007199254740992) as H53 by reflexivity.
    rewrite H53 in Hv.
    match goal with
    | |- context [2 ^ 1024 <=? ?v] => destruct (Z.leb_spec (2 ^ 1024) v)
    end.
    + replace (n <? 0) with false by (symmetry; apply Z.ltb_ge; lia). done.
    + rewrite Z.sgn_pos by lia. cbn [or_default].
      rewrite decide_False by lia. cbn [math_min]. f_equal. lia.
Qed.

(** A negative integer gives a negative number, and the limit computed
    from it is that number. *)
Lemma limit_of_negative (n : Z) :
  n < 0 →
  negative_number (round_to_double n)
  ∧ math_min (or_default (round_to_double n) 50) 100 = round_to_double n.
Proof.
  intros Hn. unfold round_to_double. cbv zeta.
  destruct (Z.ltb_spec (Z.abs n) (2 ^ 53)) as [Hsmall|Hbig].
  - cbn [or_default negative_number]. rewrite decide_False by lia.
    cbn [math_min]. split; [done|]. f_equal. lia.
  - rewrite Z.abs_neq in * by lia.
    match goal with
    | |- context [2 ^ 1024 <=? ?q * _] =>
        match q with
        | if ?c then _ else _ =>
            pose proof (rounded_magnitude (- n) c Hbig) as Hv
        end
    end.
    assert (2 ^ 53 = 9007199254740992) as H53 by reflexivity.
    rewrite H53 in Hv.
    match goal with
    | |- context [2 ^ 1024 <=? ?v] => destruct (Z.leb_spec (2 ^ 1024) v)
    end.
    + replace (n <? 0) with true by (symmetry; apply Z.ltb_lt; lia). done.
    + rewrite Z.sgn_neg by lia. cbn [or_default negative_number].
      rewrite decide_False by lia. cbn [math_min].
      split; [lia|]. f_equal. lia.
Qed.

(** A character that is not a decimal digit is no digit in radix 10. *)
Lemma radix_digit_not_digit (c : ascii) :
  is_digit c = false → radix_digit 10 c = None.
Proof.
  destruct c as [[] [] [] [] [] [] [] []]; vm_compute; congruence.
Qed.

Lemma parseInt_no_leading_digit (s : string) :
  no_leading_digit s → parseInt s = NaN.
Proof.
  unfold no_leading_digit, parseInt.
  destruct (strip_sign (trim_start s)) as [sign [|c rest]]; cbn [snd];
    [done|].
  intros Hc.
  assert (strip_prefix (String c rest) = (10, String c rest)) as ->.
  { destruct c as [[] [] [] [] [] [] [] []]; try reflexivity; discriminate. }
  cbn [parse_digits]. by rewrite radix_digit_not_digit.
Qed.

End Rounding.

(** * Properties of the handlers *)

(** Splits on the way the computation of the limit of the goal ends. *)
Ltac limit_cases req :=
  destruct (effective_limit (req_query req !! "limit")) as [?limit|?e]
    eqn:Hlimit.

Section HandlerFacts.

Implicit Types (route : Route) (now : Z) (upstream : Outbound → AxiosResult).
Implicit Types (req : Request) (m : gmap string (list Z)).

Lemma js_or_cursor (cursor : option qval) :
  js_or (of_query cursor) (JString "") = cursor_or_empty cursor.
Proof.
  destruct cursor as [[s|items|fields]|]; try reflexivity.
  by destruct s.
Qed.

Lemma limit_forwarded route now upstream req m (lim : number) :
  limit_route route →
  (checkRateLimit (req_ip req) now m).1 = true →
  effective_limit (req_query req !! "limit") = Normal lim →
  forwarded "limit" (handle route now upstream req m) = [of_number lim].
Proof.
  intros [-> | ->] Hadm Hlim; limiter_cases req now m; rewrite Hlim;
    by upstream_cases upstream.
Qed.

Lemma effective_limit_text (s : string) :
  effective_limit (Some (QString s))
  = Normal (math_min (or_default (parseInt s) 50) 100).
Proof. reflexivity. Qed.

Lemma rejected_outcome route now upstream req m :
  proxy_route route →
  (checkRateLimit (req_ip req) now m).1 = false →
  handle route now upstream req m
  = rate_limited (checkRateLimit (req_ip req) now m).2.
Proof.
  intros Hroute Hrej. destruct route; [done| | |];
    limiter_cases req now m; reflexivity.
Qed.

(** The server, one request further. *)
Lemma serve_cons upstream route req now trace m :
  serve upstream ((route, req, now) :: trace) m
  = if threw (handle route now upstream req m)
    then ([handle route now upstream req m],
          counts (handle route now upstream req m))
    else (handle route now upstream req m
            :: (serve upstream trace
                  (counts (handle route now upstream req m))).1,
          (serve upstream trace (counts (handle route now upstream req m))).2).
Proof.
  cbn [serve]. unfold threw.
  destruct (ending (handle route now upstream req m)); [|done].
  by destruct (serve upstream trace (counts (handle route now upstream req m))).
Qed.

End HandlerFacts.

(** ** C5: a rejected request *)

(** C5: on each of the three proxy endpoints, when the limiter rejects the
    client the handler answers 429 with the body
    [{"error":"Rate limit exceeded"}], makes no outbound call, writes
    nothing to the console and leaves the map as it was. *)
Theorem C5_rejected_request (route : Route) (now : Z)
    (upstream : Outbound → AxiosResult) (req : Request)
    (m : gmap string (list Z)) :
  proxy_route route →
  (checkRateLimit (req_ip req) now m).1 = false →
  handle route now upstream req m
  = {| counts := m;
       ending := Responds 429
                   (JObject [("error", JString "Rate limit exceeded")]);
       calls := []; console := [] |}.
Proof.
  intros Hroute Hrej. rewrite rejected_outcome by done.
  by apply checkRateLimit_false_inv in Hrej as [_ ->].
Qed.

(** C5, witness: the 101st request of [ip0] at [T0], on the details route. *)
Lemma C5_rejected_request_witness :
  handle GamepassDetails T0 upstream_ok (request0 [("id", "123")] []) quota_used
  = {| counts := quota_used;
       ending := Responds 429
                   (JObject [("error", JString "Rate limit exceeded")]);
       calls := []; console := [] |}.
Proof.
  apply C5_rejected_request.
  - discriminate.
  - vm_compute. reflexivity.
Defined.

(** ** C6: a failed outbound call *)



(** ** C7: the cap and the default of [limit] *)

(** C7, counterexample: [limit=12abc] is not a number, and the inventory
    endpoint sends 12 upstream, not the default 50: [parseInt] reads the
    digits a text begins with and ignores what follows them. *)
Lemma C7_counterexample :
  integer_text "12abc" = false
  ∧ forwarded "limit"
      (handle UserInventory T0 upstream_ok
         (request0 [("userId", "999")] [("limit", QString "12abc")]) ∅)
    = [JNumber 12]
  ∧ ¬ C7_as_stated.
Proof.
  split; [reflexivity|]. split; [by vm_compute|].
  intros Hclaim.
  specialize (Hclaim UserInventory T0 upstream_ok
                (request0 [("userId", "999")] [("limit", QString "12abc")])
                ∅ "12abc"%string).
  assert (forwarded "limit"
            (handle UserInventory T0 upstream_ok
               (request0 [("userId", "999")] [("limit", QString "12abc")]) ∅)
          = [JNumber 12]) as Hsent by by vm_compute.
  rewrite Hsent in Hclaim.
  discriminate Hclaim; [by left | by vm_compute | by vm_compute | reflexivity].
Qed.

(** C7, as the code has it: on the inventory and creator endpoints an
    admitted request sends upstream one [limit], which is 100 when the
    query holds an integer above 100 written in decimal, and 50 when the
    query value is a text in which no digit follows the leading white
    space and sign, or is absent. *)
Theorem C7_limit_cap_and_default (route : Route) (now : Z)
    (upstream : Outbound → AxiosResult) (req : Request)
    (m : gmap string (list Z)) :
  limit_route route →
  (checkRateLimit (req_ip req) now m).1 = true →
  let limit := req_query req !! "limit" in
  let sent := forwarded "limit" (handle route now upstream req m) in
  (∀ n, 100 < n → limit = Some (QString (pretty n)) → sent = [JNumber 100])
  ∧ (∀ s, limit = Some (QString s) → no_leading_digit s →
          sent = [JNumber 50])
  ∧ (limit = None → sent = [JNumber 50]).
Proof.
  intros Hroute Hadm. cbv zeta. repeat split.
  - intros n Hn Hq. rewrite (limit_forwarded _ _ _ _ _ (Finite 100)); try done.
    by rewrite Hq, effective_limit_text, parseInt_pretty, limit_of_large.
  - intros s Hq Hs. rewrite (limit_forwarded _ _ _ _ _ (Finite 50)); try done.
    by rewrite Hq, effective_limit_text, parseInt_no_leading_digit.
  - intros Hq. rewrite (limit_forwarded _ _ _ _ _ (Finite 50)); try done.
    by rewrite Hq.
Qed.

(** C7, witness: [limit=500] on the inventory endpoint is sent as 100. *)
Lemma C7_limit_cap_and_default_witness :
  forwarded "limit"
    (handle UserInventory T0 upstream_ok
       (request0 [("userId", "999")] [("limit", QString "500")]) ∅)
  = [JNumber 100].
Proof.
  refine (proj1 (C7_limit_cap_and_default UserInventory T0 upstream_ok
                   (request0 [("userId", "999")] [("limit", QString "500")]) ∅
                   _ _) 500 _ _).
  - by left.
  - vm_compute. reflexivity.
  - lia.
  - vm_compute. reflexivity.
Defined.

(** ** C8: what the inventory endpoint sends upstream *)

(** C8: every outbound call of the inventory endpoint has exactly the
    parameters [assetType], [limit] and [cursor], in that order, and so no
    [page]; two requests that differ only in their [page] query value have
    the same outcome, outbound call included; and an admitted request
    whose limit is computed makes one call, with [assetType=GamePass],
    that limit and the cursor (the empty string when there is none). *)
Theorem C8_inventory_outbound (now : Z) (upstream : Outbound → AxiosResult)
    (req : Request) (m : gmap string (list Z)) :
  (∀ call, call ∈ calls (handle UserInventory now upstream req m) →
           (params call).*1 = ["assetType"; "limit"; "cursor"]%string)
  ∧ forwarded "page" (handle UserInventory now upstream req m) = []
  ∧ (∀ req', req_ip req' = req_ip req →
             req_params req' = req_params req →
             (∀ key, key ≠ "page" → req_query req' !! key = req_query req !! key) →
             handle UserInventory now upstream req' m
             = handle UserInventory now upstream req m)
  ∧ ((checkRateLimit (req_ip req) now m).1 = true →
     ∀ lim, effective_limit (req_query req !! "limit") = Normal lim →
       ∃ call, calls (handle UserInventory now upstream req m) = [call]
         ∧ params call
           = [("assetType", JString "GamePass");
              ("limit", of_number lim);
              ("cursor", cursor_or_empty (req_query req !! "cursor"))]).
Proof.
  repeat split.
  - unfold handle, user_inventory.
    destruct (checkRateLimit (req_ip req) now m) as [[] ?];
      cbn [negb fst snd]; [|by intros call ?%elem_of_nil].
    limit_cases req; [|by intros call ?%elem_of_nil].
    by upstream_cases upstream; intros call ->%list_elem_of_singleton.
  - unfold handle, user_inventory.
    destruct (checkRateLimit (req_ip req) now m) as [[] ?];
      cbn [negb fst snd]; [|done].
    limit_cases req; [|done]. by upstream_cases upstream.
  - intros req' Hip Hparams Hquery.
    unfold handle, user_inventory, param_string.
    rewrite Hip, Hparams, !(Hquery "limit"), !(Hquery "cursor") by done.
    reflexivity.
  - intros Hadm lim Hlim. limiter_cases req now m.
    rewrite Hlim, js_or_cursor.
    upstream_cases upstream; eexists; split; reflexivity.
Qed.

(** C8, witness: user 999 asks with [cursor=abc123&limit=10&page=2]; the
    call carries [assetType=GamePass], [limit=10], [cursor=abc123] and the
    outcome is that of the same request without [page]. *)
Lemma C8_inventory_outbound_witness :
  let req := request0 [("userId", "999")]
               [("page", QString "2"); ("cursor", QString "abc123");
                ("limit", QString "10")] in
  let req' := request0 [("userId", "999")]
                [("cursor", QString "abc123"); ("limit", QString "10")] in
  (∃ call, calls (handle UserInventory T0 upstream_ok req ∅) = [call]
     ∧ params call = [("assetType", JString "GamePass");
                      ("limit", JNumber 10);
                      ("cursor", JString "abc123")])
  ∧ handle UserInventory T0 upstream_ok req' ∅
    = handle UserInventory T0 upstream_ok req ∅.
Proof.
  intros req req'.
  pose proof (C8_inventory_outbound T0 upstream_ok req ∅)
    as (_ & _ & Hpage & Hcall).
  split; [exact (Hcall eq_refl (Finite 10) eq_refl)|].
  apply Hpage; [reflexivity | reflexivity |].
  intros key Hkey. unfold req, req', request0. cbn [req_query list_to_map foldr].
  by rewrite (lookup_insert_ne _ "page"%string key).
Defined.

(** ** C9: the health check *)

(** C9: for every request, clock, upstream and state of the limiter, the
    health check answers 200 with the same descriptor (a status string, a
    message and the paths of the three proxy routes under their names),
    leaves the limiter's map untouched and makes no outbound call; and in
    any sequence of requests the health checks are invisible to the
    limiter: without them the other requests get the same outcomes and
    the map ends the same. *)
Theorem C9_health_check :
  (∀ (now : Z) (upstream : Outbound → AxiosResult) (req : Request)
     (m : gmap string (list Z)),
     handle HealthCheck now upstream req m
     = {| counts := m;
          ending := Responds 200 (JObject
            [("status", JString "online");
             ("message", JString "Roblox Gamepass Proxy API");
             ("endpoints", JObject
                [("gamepassDetails", JString (route_path GamepassDetails));
                 ("userInventory", JString (route_path UserInventory));
                 ("creatorGamepasses",
                  JString (route_path CreatorGamepasses))])]);
          calls := [];
          console := [] |})
  ∧ (∀ (upstream : Outbound → AxiosResult)
       (trace : list (Route * Request * Z)) (m : gmap string (list Z)),
       (serve upstream trace m).2
       = (serve upstream (proxy_requests trace) m).2
       ∧ proxy_outcomes (zip trace (serve upstream trace m).1)
         = (serve upstream (proxy_requests trace) m).1).
Proof.
  split; [reflexivity|]. intros upstream trace.
  induction trace as [|[[route req] now] trace IH]; intros m; [done|].
  rewrite serve_cons.
  unfold proxy_requests, proxy_outcomes in *.
  rewrite filter_cons. cbn [fst snd].
  destruct (decide (route ≠ HealthCheck)) as [Hroute|Hroute].
  - rewrite serve_cons.
    destruct (threw (handle route now upstream req m));
      cbn [fst snd zip zip_with].
    + rewrite filter_cons. cbn [fst snd]. rewrite decide_True by done.
      by destruct trace.
    + rewrite filter_cons. cbn [fst snd]. rewrite decide_True by done.
      rewrite fmap_cons. cbn [fst snd].
      destruct (IH (counts (handle route now upstream req m))) as [-> ->].
      done.
  - apply dec_stable in Hroute as ->.
    change (threw (handle HealthCheck now upstream req m)) with false.
    cbn [fst snd zip zip_with].
    rewrite filter_cons. cbn [fst snd].
    rewrite decide_False by (intros Hne; by apply Hne).
    apply IH.
Qed.

(** The health check answers while the proxy routes reject the client. *)
Example health_check_while_limited :
  ending (handle GamepassDetails T0 upstream_ok (request0 [("id", "123")] [])
            quota_used)
  = Responds 429 (JObject [("error", JString "Rate limit exceeded")])
  ∧ threw (handle HealthCheck T0 upstream_ok (request0 [] []) quota_used)
    = false
  ∧ counts (handle HealthCheck T0 upstream_ok (request0 [] []) ∅) = ∅.
Proof. by vm_compute. Qed.

(** ** C10: the lower side of [limit] *)

(** C10, counterexample: [limit=-9007199254740993] is sent upstream as
    -9007199254740992, the double nearest to it, not as the integer that
    was written. *)
Lemma C10_counterexample :
  forwarded "limit"
    (handle CreatorGamepasses T0 upstream_ok
       (request0 [("userId", "999")]
          [("limit", QString "-9007199254740993")]) ∅)
  = [JNumber (-9007199254740992)]
  ∧ ¬ C10_as_stated.
Proof.
  assert (forwarded "limit"
            (handle CreatorGamepasses T0 upstream_ok
               (request0 [("userId", "999")]
                  [("limit", QString "-9007199254740993")]) ∅)
          = [JNumber (-9007199254740992)]) as Hsent by by vm_compute.
  split; [exact Hsent|]. intros Hclaim.
  specialize (Hclaim CreatorGamepasses T0 upstream_ok
                (request0 [("userId", "999")]
                   [("limit", QString "-9007199254740993")])
                ∅ (-9007199254740993)).
  rewrite Hsent in Hclaim.
  discriminate Hclaim; [by right | by vm_compute | lia | by vm_compute].
Qed.

(** C10, as the code has it: on the inventory and creator endpoints an
    admitted request whose [limit] is a negative integer written in
    decimal sends upstream the double nearest to it, which is negative
    (not 50 and not 0) and is the integer itself when its magnitude is
    below 2^53; and [limit=0] sends the default 50. *)
Theorem C10_limit_lower_side (route : Route) (now : Z)
    (upstream : Outbound → AxiosResult) (req : Request)
    (m : gmap string (list Z)) :
  limit_route route →
  (checkRateLimit (req_ip req) now m).1 = true →
  let limit := req_query req !! "limit" in
  let sent := forwarded "limit" (handle route now upstream req m) in
  (∀ n, - 2 ^ 53 < n < 0 → limit = Some (QString (pretty n)) →
        sent = [JNumber n])
  ∧ (∀ n, n < 0 → limit = Some (QString (pretty n)) →
          sent = [of_number (round_to_double n)]
          ∧ negative_number (round_to_double n))
  ∧ (limit = Some (QString "0") → sent = [JNumber 50]).
Proof.
  intros Hroute Hadm. cbv zeta.
  assert (∀ n, n < 0 →
            req_query req !! "limit" = Some (QString (pretty n)) →
            forwarded "limit" (handle route now upstream req m)
            = [of_number (round_to_double n)]) as Hneg.
  { intros n Hn Hq.
    apply limit_forwarded; [done | done |].
    rewrite Hq, effective_limit_text, parseInt_pretty.
    by destruct (limit_of_negative n Hn) as [_ ->]. }
  split; [|split].
  - intros n Hn Hq. rewrite (Hneg n) by (done || lia).
    rewrite round_to_double_exact; [done|].
    assert (2 ^ 53 = 9007199254740992) as H53 by reflexivity. lia.
  - intros n Hn Hq. split; [by apply Hneg | by apply limit_of_negative].
  - intros Hq. rewrite (limit_forwarded _ _ _ _ _ (Finite 50)); try done.
    by rewrite Hq.
Qed.

(** C10, witness: [limit=-5] on the creator endpoint is sent as -5. *)
Lemma C10_limit_lower_side_witness :
  forwarded "limit"
    (handle CreatorGamepasses T0 upstream_ok
       (request0 [("userId", "999")] [("limit", QString "-5")]) ∅)
  = [JNumber (-5)].
Proof.
  refine (proj1 (C10_limit_lower_side CreatorGamepasses T0 upstream_ok
                   (request0 [("userId", "999")] [("limit", QString "-5")]) ∅
                   _ _) (-5) _ _).
  - by right.
  - vm_compute. reflexivity.
  - assert (2 ^ 53 = 9007199254740992) as H53 by reflexivity. lia.
  - vm_compute. reflexivity.
Defined.

(** ** Concrete runs of the limit computation *)

Example effective_limit_samples :
  effective_limit <$>
    [Some (QString "500"); Some (QString "abc"); None; Some (QString "10");
     Some (QString "-5"); Some (QString "0"); Some (QString "100");
     Some (QString "12abc"); Some (QString "1e3");
     Some (QArray [QString "7"; QString "8"]); Some (QObject []);
     Some (QObject [("toString", QString "x")]);
     Some (QArray [QString "500"; QObject [("toString", QString "x")]]);
     Some (QString "-9007199254740993")]
  = [Normal (Finite 100); Normal (Finite 50); Normal (Finite 50);
     Normal (Finite 10); Normal (Finite (-5)); Normal (Finite 50);
     Normal (Finite 100); Normal (Finite 12); Normal (Finite 1);
     Normal (Finite 7); Normal (Finite 50); Throw TypeError; Throw TypeError;
     Normal (Finite (-9007199254740992))].
Proof. by vm_compute. Qed.

Example parseInt_samples :
  parseInt <$>
    ["500"; "abc"; " -5"; "0x1f"; "12abc"; "0"; "-0"; ""; "0x"; "undefined";
     "+7,8"; "1e3"; "-0X10"; "9007199254740993"; "9007199254740995"]%string
  = [Finite 500; NaN; Finite (-5); Finite 31; Finite 12; Finite 0; Finite 0;
     NaN; NaN; NaN; Finite 7; Finite 1; Finite (-16);
     Finite 9007199254740992; Finite 9007199254740996].
Proof. by vm_compute. Qed.

(** A numeral of 400 digits is out of the range of the doubles. *)
Example parseInt_overflow :
  parseInt (pretty (- 10 ^ 400)) = Infinity true
  ∧ effective_limit (Some (QString (pretty (10 ^ 400)))) = Normal (Finite 100)
  ∧ effective_limit (Some (QString (pretty (- 10 ^ 400))))
    = Normal (Infinity true).
Proof. by vm_compute. Qed.

(** * Further properties of the rate limiter *)

Section RateLimiterMore.

Implicit Types (ip client : string) (now time : Z) (l : list Z).
Implicit Types (m : gmap string (list Z)) (calls : list (string * Z)).

(** The decision is a function of the client's stored array alone. *)
Lemma checkRateLimit_decision ip now m :
  (checkRateLimit ip now m).1
  = bool_decide (length (filter (recent now) (get_or_empty ip m))
                 < RATE_LIMIT)%nat.
Proof.
  unfold checkRateLimit. case_decide; cbn [fst].
  - rewrite bool_decide_eq_false_2; [done | lia].
  - rewrite bool_decide_eq_true_2; [done | lia].
Qed.

(** A property kept by every call holds after every run. *)
Lemma run_invariant (P : gmap string (list Z) → Prop) :
  (∀ ip now m, P m → P (checkRateLimit ip now m).2) →
  ∀ calls m, P m → P (run calls m).2.
Proof.
  intros Hstep calls. induction calls as [|[ip now] calls IH]; intros m Hm.
  - done.
  - rewrite run_cons. cbn [snd]. by apply IH, Hstep.
Qed.

Lemma get_or_empty_nil_of_None ip m : m !! ip = None → get_or_empty ip m = [].
Proof. unfold get_or_empty. by intros ->. Qed.

Lemma checkRateLimit_dom ip now m :
  dom (checkRateLimit ip now m).2 = {[ip]} ∪ dom m.
Proof.
  unfold checkRateLimit. case_decide as Hfull; cbn [snd].
  - assert (ip ∈ dom m); [|set_solver].
    apply elem_of_dom. destruct (m !! ip) eqn:Hlook; [done|].
    rewrite (get_or_empty_nil_of_None ip m Hlook) in Hfull.
    unfold RATE_LIMIT in Hfull. simpl in Hfull. lia.
  - apply dom_insert_L.
Qed.

End RateLimiterMore.

(** X1: the map never loses a key, and a client gets its key at its first
    call: after any run from the empty map the keys are exactly the
    addresses that have called, whatever the decisions were. *)
Theorem X1_keys_are_the_clients_seen (calls : list (string * Z)) :
  dom (run calls ∅).2 = list_to_set calls.*1.
Proof.
  assert (∀ m, dom (run calls m).2 = list_to_set calls.*1 ∪ dom m) as Hgen.
  { induction calls as [|[ip now] calls IH]; intros m.
    - cbn. set_solver.
    - rewrite run_cons. cbn [snd]. rewrite IH, checkRateLimit_dom.
      rewrite fmap_cons. cbn [fst list_to_set]. set_solver. }
  rewrite Hgen, dom_empty_L. set_solver.
Qed.

(** X2: clients do not affect each other.  In any run, the decisions taken
    for a client and the array left for it are those of the run of its own
    calls alone. *)
Theorem X2_clients_are_independent (client : string)
    (calls : list (string * Z)) :
  decisions_for client calls ∅ = (run (calls_of client calls) ∅).1
  ∧ get_or_empty client (run calls ∅).2
    = get_or_empty client (run (calls_of client calls) ∅).2.
Proof.
  unfold decisions_for, calls_of.
  assert (∀ m1 m2, get_or_empty client m1 = get_or_empty client m2 →
            (filter (λ cd : string * Z * bool, cd.1.1 = client)
                    (zip calls (run calls m1).1)).*2
            = (run (filter (λ c : string * Z, c.1 = client) calls) m2).1
            ∧ get_or_empty client (run calls m1).2
              = get_or_empty client
                  (run (filter (λ c : string * Z, c.1 = client) calls) m2).2)
    as Hgen; [|by apply Hgen].
  induction calls as [|[ip now] calls IH]; intros m1 m2 Hview; [done|].
  rewrite run_cons. cbn [fst snd zip zip_with]. rewrite !filter_cons.
  cbn [fst snd].
  destruct (decide (ip = client)) as [->|Hne].
  - rewrite run_cons, fmap_cons. cbn [fst snd].
    rewrite !checkRateLimit_decision, Hview.
    destruct (IH (checkRateLimit client now m1).2
                 (checkRateLimit client now m2).2) as [-> ->]; [|done].
    rewrite !get_or_empty_after, !checkRateLimit_decision, Hview. done.
  - apply IH. rewrite get_or_empty_after, decide_False; [done|].
    intros [? _]. congruence.
Qed.

Section ClockThatNeverGoesBack.

Implicit Types (ip client : string) (now time : Z) (l A : list Z).
Implicit Types (m : gmap string (list Z)) (calls : list (string * Z)).

(** Seen from a later instant, pruning at an earlier one removes nothing
    that is still inside the window. *)
Lemma filter_recent_later now time l :
  time ≤ now →
  filter (recent now) (filter (recent time) l) = filter (recent now) l.
Proof.
  intros Hle. rewrite list_filter_filter. apply list_filter_iff.
  intros x. unfold recent. lia.
Qed.

Lemma admitted_times_cons client ip now calls m :
  admitted_times client ((ip, now) :: calls) m
  = (if decide (ip = client ∧ (checkRateLimit ip now m).1 = true)
     then [now] else [])
    ++ admitted_times client calls (checkRateLimit ip now m).2.
Proof.
  unfold admitted_times. rewrite run_cons. cbn [fst snd zip zip_with].
  rewrite filter_cons. cbn [fst snd]. by case_decide.
Qed.

(** While the clock does not go back, the stored array and the list of
    admitted calls agree on every window that ends now or later. *)
Lemma stored_is_admitted client calls m A lb :
  (∀ now, lb ≤ now →
     filter (recent now) (get_or_empty client m) = filter (recent now) A) →
  StronglySorted Z.le calls.*2 →
  Forall (Z.le lb) calls.*2 →
  ∀ now, lb ≤ now → Forall (λ t, t ≤ now) calls.*2 →
    filter (recent now) (get_or_empty client (run calls m).2)
    = filter (recent now) (A ++ admitted_times client calls m).
Proof.
  revert m A lb. induction calls as [|[ip t] calls IH];
    intros m A lb Hview Hsorted Hlb now Hnow Hle.
  { cbn. rewrite app_nil_r. by apply Hview. }
  rewrite fmap_cons in *. cbn [snd] in *.
  apply StronglySorted_inv in Hsorted as [Hsorted Hhead].
  apply Forall_cons in Hlb as [Ht Hlb].
  apply Forall_cons in Hle as [Htnow Hle].
  rewrite run_cons, admitted_times_cons. cbn [snd]. rewrite app_assoc.
  apply (IH _ _ t); [|done|done|done|done].
  intros now' Hnow'. rewrite get_or_empty_after.
  destruct (decide (client = ip ∧ (checkRateLimit ip t m).1 = true))
    as [[-> Hadm]|Hno].
  - rewrite decide_True by done.
    rewrite !filter_app, filter_recent_later by done.
    rewrite Hview by lia. done.
  - rewrite decide_False by (intros [-> ?]; by apply Hno).
    rewrite app_nil_r. apply Hview. lia.
Qed.

Lemma sorted_snoc_inv (ts : list Z) now :
  StronglySorted Z.le (ts ++ [now]) →
  StronglySorted Z.le ts ∧ Forall (λ t, t ≤ now) ts.
Proof.
  induction ts as [|t ts IH]; intros Hs; [by split; constructor|].
  cbn in Hs. apply StronglySorted_inv in Hs as [Hs Hhead].
  destruct (IH Hs) as [Hs' Hle]. apply Forall_app in Hhead as [Hts Hnow].
  apply Forall_inv in Hnow.
  split; [by constructor | by constructor].
Qed.

Lemma stored_is_admitted_from_empty client calls now :
  StronglySorted Z.le (calls.*2 ++ [now]) →
  filter (recent now) (get_or_empty client (run calls ∅).2)
  = filter (recent now) (admitted_times client calls ∅).
Proof.
  intros [Hsorted Hle]%sorted_snoc_inv.
  destruct calls as [|[ip t] calls]; [done|].
  rewrite fmap_cons in *. cbn [snd] in *.
  apply (stored_is_admitted client ((ip, t) :: calls) ∅ [] t).
  - done.
  - done.
  - rewrite fmap_cons. cbn [snd]. apply StronglySorted_inv in Hsorted as [_ Hh].
    constructor; [lia | done].
  - by apply Forall_cons in Hle as [? _].
  - done.
Qed.

End ClockThatNeverGoesBack.

(** X3: while the clock never goes back, the limiter is exact: a call is
    admitted if and only if fewer than 100 of the client's earlier admitted
    calls are less than 60000 ms old. *)
Theorem X3_exact_under_monotone_clock (calls : list (string * Z))
    (ip : string) (now : Z) :
  StronglySorted Z.le (calls.*2 ++ [now]) →
  (checkRateLimit ip now (run calls ∅).2).1
  = bool_decide (length (filter (recent now) (admitted_times ip calls ∅))
                 < RATE_LIMIT)%nat.
Proof.
  intros Hsorted. rewrite checkRateLimit_decision.
  by rewrite stored_is_admitted_from_empty.
Qed.

(** X3, witness: after [mixed_calls], [ip0] asks again at 30. *)
Lemma X3_exact_under_monotone_clock_witness :
  (checkRateLimit ip0 30 (run mixed_calls ∅).2).1
  = bool_decide
      (length (filter (recent 30) (admitted_times ip0 mixed_calls ∅))
       < RATE_LIMIT)%nat.
Proof.
  apply X3_exact_under_monotone_clock.
  refine (bool_decide_unpack _ _). vm_compute. exact I.
Defined.

(** X4: what the limiter guarantees while the clock never goes back: at
    every instant at or after the last call, at most 100 admitted calls of
    a client are less than 60000 ms old. *)
Theorem X4_at_most_quota_admitted_per_window (calls : list (string * Z))
    (client : string) (now : Z) :
  StronglySorted Z.le (calls.*2 ++ [now]) →
  (length (filter (recent now) (admitted_times client calls ∅))
   ≤ RATE_LIMIT)%nat.
Proof.
  intros Hsorted. rewrite <- stored_is_admitted_from_empty by done.
  pose proof (bounded_run calls ∅ bounded_empty client) as Hb.
  pose proof (length_filter (recent now)
                (get_or_empty client (run calls ∅).2)).
  lia.
Qed.

(** X4, witness: 150 calls of [ip0] in the same millisecond. *)
Lemma X4_at_most_quota_admitted_per_window_witness :
  (length (filter (recent 7) (admitted_times ip0 burst_calls ∅))
   ≤ RATE_LIMIT)%nat.
Proof.
  apply X4_at_most_quota_admitted_per_window.
  refine (bool_decide_unpack _ _). vm_compute. exact I.
Defined.

(** X5: a client with fewer than 100 stored timestamps is admitted whatever
    the clock says, even a value before the stored ones; in particular a
    client that has no entry is admitted and gets the one-element array. *)
Theorem X5_below_quota_is_admitted (ip : string) (now : Z)
    (m : gmap string (list Z)) :
  (length (get_or_empty ip m) < RATE_LIMIT)%nat →
  (checkRateLimit ip now m).1 = true
  ∧ (m !! ip = None → (checkRateLimit ip now m).2 = <[ip := [now]]> m).
Proof.
  intros Hroom.
  pose proof (length_filter (recent now) (get_or_empty ip m)) as Hlen.
  rewrite checkRateLimit_admit by lia. split; [done|].
  intros Hnone. cbn [snd]. by rewrite (get_or_empty_nil_of_None ip m Hnone).
Qed.

(** X5, witness: a first call, with a clock at zero. *)
Lemma X5_below_quota_is_admitted_witness :
  (checkRateLimit ip0 0 ∅).1 = true
  ∧ ((∅ : gmap string (list Z)) !! ip0 = None →
     (checkRateLimit ip0 0 ∅).2 = <[ip0 := [0]]> ∅).
Proof.
  apply X5_below_quota_is_admitted. vm_compute. lia.
Defined.

(** X6: when a blocked client is let in again.  If the stored array of a
    client is full (100 timestamps) and [oldest] is its earliest timestamp,
    a call at [now] is admitted if and only if [oldest] is at least
    60000 ms old. *)
Theorem X6_unblocked_when_oldest_expires (ip : string) (now oldest : Z)
    (m : gmap string (list Z)) :
  length (get_or_empty ip m) = RATE_LIMIT →
  oldest ∈ get_or_empty ip m →
  Forall (Z.le oldest) (get_or_empty ip m) →
  (checkRateLimit ip now m).1 = bool_decide (oldest + RATE_WINDOW ≤ now).
Proof.
  intros Hfull Hin Hmin. rewrite checkRateLimit_decision.
  destruct (decide (oldest + RATE_WINDOW ≤ now)) as [Hold|Hyoung].
  - rewrite (bool_decide_eq_true_2 (oldest + RATE_WINDOW ≤ now)) by done.
    apply bool_decide_eq_true_2. rewrite <- Hfull.
    apply (length_filter_lt _ _ oldest); [done|]. unfold recent. lia.
  - rewrite (bool_decide_eq_false_2 (oldest + RATE_WINDOW ≤ now)) by done.
    apply bool_decide_eq_false_2.
    rewrite filter_all_of_Forall; [lia|].
    eapply Forall_impl; [exact Hmin|]. intros x Hx. unfold recent. lia.
Qed.

(** X6, witness: in [full_map] the oldest timestamp of [ip0] is 500; a call
    at 60499 is still rejected and a call at 60500 is admitted. *)
Lemma X6_unblocked_when_oldest_expires_witness :
  (checkRateLimit ip0 60499 full_map).1 = bool_decide (500 + RATE_WINDOW ≤ 60499)
  ∧ (checkRateLimit ip0 60500 full_map).1
    = bool_decide (500 + RATE_WINDOW ≤ 60500).
Proof.
  split; apply X6_unblocked_when_oldest_expires.
  - reflexivity.
  - vm_compute. by left.
  - refine (bool_decide_unpack _ _). vm_compute. exact I.
  - reflexivity.
  - vm_compute. by left.
  - refine (bool_decide_unpack _ _). vm_compute. exact I.
Defined.

Lemma well_stored_after_admit (now : Z) (l : list Z) :
  well_stored (filter (recent now) l ++ [now]).
Proof.
  exists now. split; [apply last_snoc|].
  apply Forall_app. split.
  - apply Forall_forall. by intros x [? _]%list_elem_of_filter.
  - apply Forall_singleton. unfold recent, RATE_WINDOW. lia.
Qed.

(** X7: in every state of the server, each stored array is well formed: it
    is not empty, and every timestamp in it is inside the window that ends
    at its last timestamp (the clock value of the call that stored it). *)
Theorem X7_stored_arrays_are_well_formed (m : gmap string (list Z))
    (ip : string) (l : list Z) :
  reachable m → m !! ip = Some l → well_stored l.
Proof.
  intros [calls <-]. revert ip l.
  apply (run_invariant (λ m, ∀ ip l, m !! ip = Some l → well_stored l)).
  - intros ip now m Hm client l. unfold checkRateLimit.
    case_decide; cbn [snd]; [apply Hm|].
    destruct (decide (ip = client)) as [->|Hne].
    + rewrite lookup_insert_eq. intros [= <-]. apply well_stored_after_admit.
    + rewrite lookup_insert_ne by done. apply Hm.
  - intros ip l Hl. by rewrite lookup_empty in Hl.
Qed.

(** X7, witness: the array of [ip0] after [mixed_calls]. *)
Lemma X7_stored_arrays_are_well_formed_witness : well_stored [0; 10; 20].
Proof.
  apply (X7_stored_arrays_are_well_formed (run mixed_calls ∅).2 ip0).
  - by exists mixed_calls.
  - vm_compute. reflexivity.
Defined.

(** * Further properties of the limit computation *)

Section LimitMore.

Lemma append_snoc_cons (a : string) (c : ascii) (s : string) :
  ((a +:+ String c "") +:+ s = a +:+ String c s)%string.
Proof.
  induction a as [|c0 a IH]; [reflexivity|].
  change (String c0 ((a +:+ String c "") +:+ s) = String c0 (a +:+ String c s)).
  by rewrite IH.
Qed.

(** The digits of [x] are written in front of what is already there. *)
Lemma pretty_N_go_append (x : N) (s : string) :
  pretty_N_go x s = (pretty_N_go x "" +:+ s)%string.
Proof.
  revert s. induction x as [x IH] using (well_founded_induction N.lt_wf_0).
  intros s. destruct (decide (0 < x)%N) as [Hx|Hx].
  - rewrite !(pretty_N_go_step x) by done.
    assert (x `div` 10 < x)%N as Hlt by (apply N.div_lt; lia).
    rewrite (IH _ Hlt (String _ s)), (IH _ Hlt (String _ "")).
    by rewrite append_snoc_cons.
  - assert (x = 0%N) as -> by lia. by rewrite !pretty_N_go_0.
Qed.

(** A decimal numeral followed by a comma reads as the numeral. *)
Lemma parseInt_pretty_comma (n : Z) (s : string) :
  parseInt (pretty n +:+ String "," s) = round_to_double n.
Proof.
  destruct n as [|p|p]; [reflexivity| |].
  - change (pretty (Z.pos p)) with (pretty_N_go (N.pos p) "").
    rewrite <- pretty_N_go_append.
    destruct (pretty_go_head (N.pos p) (String "," s))
      as (d & rest & Hd & Hhead); [done|].
    rewrite Hhead, parseInt_leading_digit, <- Hhead by done.
    rewrite parse_digits_pretty_go by done. reflexivity.
  - change (pretty (Z.neg p) +:+ String "," s)%string
      with (String "-" (pretty_N_go (N.pos p) "" +:+ String "," s)).
    rewrite <- pretty_N_go_append.
    destruct (pretty_go_head (N.pos p) (String "," s))
      as (d & rest & Hd & Hhead); [done|].
    rewrite Hhead, parseInt_minus_digit, <- Hhead by done.
    rewrite parse_digits_pretty_go by done. reflexivity.
Qed.

Lemma qToString_array_cons (a b : qval) (rest : list qval) :
  qToString (QArray (a :: b :: rest))
  = match qToString a with
    | Throw e => Throw e
    | Normal sa =>
        match qToString (QArray (b :: rest)) with
        | Throw e => Throw e
        | Normal sr => Normal (sa +:+ String "," sr)%string
        end
    end.
Proof. reflexivity. Qed.

End LimitMore.

(** X8: whatever the query holds under [limit], the limit that is computed
    is never [NaN] and never 0: it is a finite integer that is at most 100
    and not 0, or minus infinity; and no limit is computed exactly when
    the value cannot be converted to a string. *)
Theorem X8_limit_range (limit : option qval) :
  match effective_limit limit with
  | Normal (Finite n) => n ≤ 100 ∧ n ≠ 0
  | Normal (Infinity negative) => negative = true
  | Normal NaN => False
  | Throw _ => ¬ converts limit
  end.
Proof.
  unfold effective_limit, converts.
  destruct (ToString limit) as [s|e]; [|by intros [s' ?]].
  destruct (parseInt s) as [|[]|n]; cbn [or_default math_min].
  - lia.
  - done.
  - lia.
  - case_decide; cbn [math_min]; lia.
Qed.

(** X9: on the inventory and creator endpoints, a [limit] from 1 to 100
    written in decimal is sent upstream unchanged. *)
Theorem X9_limit_in_range_is_forwarded (route : Route) (now : Z)
    (upstream : Outbound → AxiosResult) (req : Request)
    (m : gmap string (list Z)) (n : Z) :
  limit_route route →
  (checkRateLimit (req_ip req) now m).1 = true →
  1 ≤ n ≤ 100 →
  req_query req !! "limit" = Some (QString (pretty n)) →
  forwarded "limit" (handle route now upstream req m) = [JNumber n].
Proof.
  intros Hroute Hadm Hn Hq.
  rewrite (limit_forwarded _ _ _ _ _ (Finite n)); try done.
  rewrite Hq, effective_limit_text, parseInt_pretty.
  rewrite round_to_double_exact.
  - cbn [or_default]. rewrite decide_False by lia. cbn [math_min].
    do 2 f_equal. lia.
  - assert (2 ^ 53 = 9007199254740992) as H53 by reflexivity. lia.
Qed.

(** X9, witness: [limit=25] on the creator endpoint. *)
Lemma X9_limit_in_range_is_forwarded_witness :
  forwarded "limit"
    (handle CreatorGamepasses T0 upstream_ok
       (request0 [("userId", "999")] [("limit", QString "25")]) ∅)
  = [JNumber 25].
Proof.
  apply X9_limit_in_range_is_forwarded.
  - by right.
  - vm_compute. reflexivity.
  - lia.
  - vm_compute. reflexivity.
Defined.

(** X10: when [limit] is given more than once the query holds an array.
    If the elements after the first convert to strings, the limit is
    computed from the first element alone; if one of them does not, the
    computation throws.  When [limit] is a nested object, the computation
    throws if the object has a key [toString] and gives the default 50
    otherwise. *)
Theorem X10_limit_as_array_or_object (n : Z) (second : qval)
    (rest : list qval) (fields : list (string * qval)) :
  effective_limit (Some (QArray (QString (pretty n) :: second :: rest)))
  = match qToString (QArray (second :: rest)) with
    | Normal _ => effective_limit (Some (QString (pretty n)))
    | Throw e => Throw e
    end
  ∧ effective_limit (Some (QObject fields))
    = if has_own "toString" fields then Throw TypeError
      else Normal (Finite 50).
Proof.
  split.
  - unfold effective_limit, ToString. rewrite qToString_array_cons.
    change (qToString (QString (pretty n))) with (Normal (pretty n)).
    destruct (qToString (QArray (second :: rest))); [|done].
    by rewrite parseInt_pretty_comma, parseInt_pretty.
  - unfold effective_limit, ToString. cbn [qToString].
    by destruct (has_own "toString" fields).
Qed.

(** * Further properties of the handlers *)

Section HandlerMore.

Implicit Types (route : Route) (now : Z) (upstream : Outbound → AxiosResult).
Implicit Types (req : Request) (m : gmap string (list Z)).

(** The map a handler leaves: the health check leaves it alone, a proxy
    endpoint leaves what [checkRateLimit] left, however it ends. *)
Lemma handle_counts route now upstream req m :
  counts (handle route now upstream req m)
  = if decide (route = HealthCheck) then m
    else (checkRateLimit (req_ip req) now m).2.
Proof.
  destruct route; [done| | |];
    (rewrite decide_False by done);
    unfold handle, gamepass_details, user_inventory, creator_gamepasses;
    destruct (checkRateLimit (req_ip req) now m) as [[] ?];
    cbn [negb fst snd]; try done; try limit_cases req; try done;
    by upstream_cases upstream.
Qed.

Lemma limit_converts_bool route req now :
  bool_decide (limit_converts (route, req, now))
  = match route with
    | UserInventory | CreatorGamepasses =>
        match ToString (req_query req !! "limit") with
        | Normal _ => true
        | Throw _ => false
        end
    | HealthCheck | GamepassDetails => true
    end.
Proof.
  case_bool_decide as Hc; unfold limit_converts in Hc; cbn [fst snd] in Hc;
    destruct route; try done;
    by destruct (ToString (req_query req !! "limit")).
Qed.

(** A handler throws exactly when the limiter admits and the limit cannot
    be computed. *)
Lemma handle_threw route now upstream req m :
  threw (handle route now upstream req m)
  = (checkRateLimit (req_ip req) now m).1
    && negb (bool_decide (limit_converts (route, req, now))).
Proof.
  rewrite limit_converts_bool. destruct route.
  - by rewrite andb_false_r.
  - rewrite andb_false_r. limiter_cases req now m; [|done].
    by upstream_cases upstream.
  - limiter_cases req now m; [|done]. unfold effective_limit.
    destruct (ToString (req_query req !! "limit")); [|done].
    by upstream_cases upstream.
  - limiter_cases req now m; [|done]. unfold effective_limit.
    destruct (ToString (req_query req !! "limit")); [|done].
    by upstream_cases upstream.
Qed.

(** A proxy endpoint calls the upstream exactly when the limiter admits
    and the limit can be computed. *)
Lemma handle_called route now upstream req m :
  called (handle route now upstream req m)
  = (if decide (route = HealthCheck) then false
     else (checkRateLimit (req_ip req) now m).1)
    && bool_decide (limit_converts (route, req, now)).
Proof.
  rewrite limit_converts_bool. destruct route.
  - done.
  - rewrite decide_False by done. limiter_cases req now m; [|done].
    by upstream_cases upstream.
  - rewrite decide_False by done. limiter_cases req now m; [|done].
    unfold effective_limit.
    destruct (ToString (req_query req !! "limit")); [|done].
    by upstream_cases upstream.
  - rewrite decide_False by done. limiter_cases req now m; [|done].
    unfold effective_limit.
    destruct (ToString (req_query req !! "limit")); [|done].
    by upstream_cases upstream.
Qed.

(** A proxy endpoint gives the answer of the limiter, with the map as it
    was, exactly when the limiter rejects. *)
Lemma handle_rate_limited route now upstream req m :
  proxy_route route →
  handle route now upstream req m = rate_limited m
  ↔ (checkRateLimit (req_ip req) now m).1 = false.
Proof.
  intros Hroute. split.
  - intros Heq. apply (f_equal called) in Heq as Hcalled.
    apply (f_equal threw) in Heq as Hthrew.
    rewrite handle_called, decide_False in Hcalled by done.
    rewrite handle_threw in Hthrew. cbn in Hcalled, Hthrew.
    destruct (checkRateLimit (req_ip req) now m).1; [|done].
    by destruct (bool_decide (limit_converts (route, req, now))).
  - intros Hrej. rewrite rejected_outcome by done.
    by apply checkRateLimit_false_inv in Hrej as [_ ->].
Qed.

(** Requests of one client inside one window, while the quota lasts and
    the limits can be computed: each reaches the upstream and its clock
    value is appended to the array. *)
Lemma serve_one_window upstream ip w trace (l0 : list Z) m :
  get_or_empty ip m = l0 →
  Forall (λ t, w ≤ t < w + RATE_WINDOW) l0 →
  Forall (in_window_of ip w) trace →
  Forall limit_converts trace →
  (length l0 + length trace ≤ RATE_LIMIT)%nat →
  length (serve upstream trace m).1 = length trace
  ∧ Forall (λ o, called o = true) (serve upstream trace m).1
  ∧ get_or_empty ip (serve upstream trace m).2 = l0 ++ trace.*2.
Proof.
  revert l0 m. induction trace as [|[[route req] now] trace IH];
    intros l0 m Hget Hl0 Htrace Hconv Hlen.
  { cbn. by rewrite app_nil_r. }
  apply Forall_cons in Htrace as [(Hroute & Hip & Hnow) Htrace].
  apply Forall_cons in Hconv as [Hc Hconv].
  cbn [fst snd length] in *. rewrite serve_cons.
  rewrite handle_threw, (bool_decide_eq_true_2 _ Hc), andb_false_r.
  cbn [fst snd].
  assert (filter (recent now) (get_or_empty ip m) = l0) as Hkeep.
  { rewrite Hget. apply filter_all_of_Forall.
    eapply Forall_impl; [exact Hl0|]. intros x Hx.
    by apply (recent_same_window w). }
  assert (checkRateLimit (req_ip req) now m
          = (true, <[ip := l0 ++ [now]]> m)) as Hadm.
  { rewrite Hip, checkRateLimit_admit by (rewrite Hkeep; lia).
    by rewrite Hkeep. }
  rewrite handle_counts, decide_False, Hadm by done. cbn [snd].
  destruct (IH (l0 ++ [now]) (<[ip := l0 ++ [now]]> m)) as (IHn & IHc & IHg).
  - apply get_or_empty_insert.
  - apply Forall_app. split; [done|]. by apply Forall_singleton.
  - done.
  - done.
  - rewrite length_app. simpl. lia.
  - split; [|split].
    + cbn [length]. by rewrite IHn.
    + constructor; [|done].
      rewrite handle_called, decide_False, Hadm by done.
      by rewrite (bool_decide_eq_true_2 _ Hc).
    + rewrite IHg, fmap_cons, <- app_assoc. done.
Qed.

End HandlerMore.

(** X11: on every endpoint, when the outbound call the handler made
    succeeds with [data], that call is the only one and the handler
    answers 200 with [data] itself as the body and writes nothing to the
    console. *)
Theorem X11_success_is_relayed (route : Route) (now : Z)
    (upstream : Outbound → AxiosResult) (req : Request)
    (m : gmap string (list Z)) (call : Outbound) (data : jsval) :
  call ∈ calls (handle route now upstream req m) →
  upstream call = Resolved data →
  calls (handle route now upstream req m) = [call]
  ∧ ending (handle route now upstream req m) = Responds 200 data
  ∧ console (handle route now upstream req m) = [].
Proof.
  intros Hcall Hok.
  revert Hcall. destruct route; [by intros ?%elem_of_nil| | |];
    unfold handle, gamepass_details, user_inventory, creator_gamepasses;
    destruct (checkRateLimit (req_ip req) now m) as [[] ?];
    cbn [negb fst snd]; try (by intros ?%elem_of_nil);
    try limit_cases req; try (by intros ?%elem_of_nil);
    upstream_cases upstream; cbn [calls ending console];
    intros ->%list_elem_of_singleton;
    rewrite Hok in Hsettle; by simplify_eq.
Qed.

(** X11, witness: the upstream answers [{"id":123}] for gamepass 123. *)
Lemma X11_success_is_relayed_witness :
  let req := request0 [("id", "123")] [] in
  let call :=
    {| url := "https://apis.roblox.com/game-passes/v1/game-passes/123/details";
       params := [];
       headers := [("User-Agent", "RobloxGamepassProxy/1.0")] |} in
  calls (handle GamepassDetails T0 upstream_ok req ∅) = [call]
  ∧ ending (handle GamepassDetails T0 upstream_ok req ∅)
    = Responds 200 (JObject [("id", JNumber 123)])
  ∧ console (handle GamepassDetails T0 upstream_ok req ∅) = [].
Proof.
  intros req call.
  apply (X11_success_is_relayed GamepassDetails T0 upstream_ok req ∅ call
           (JObject [("id", JNumber 123)])).
  - vm_compute. by left.
  - reflexivity.
Defined.

(** X12: what is written to the console.  A handler writes nothing unless
    its outbound call failed, and then it writes one line: the prefix of
    its endpoint and the message of the error. *)
Theorem X12_console_only_on_failure (route : Route) (now : Z)
    (upstream : Outbound → AxiosResult) (req : Request)
    (m : gmap string (list Z)) :
  match console (handle route now upstream req m) with
  | [] => ∀ call, call ∈ calls (handle route now upstream req m) →
                  ∃ data, upstream call = Resolved data
  | line :: more =>
      more = []
      ∧ ∃ call error,
          calls (handle route now upstream req m) = [call]
          ∧ upstream call = Rejected error
          ∧ line = [log_prefix route; message error]
  end.
Proof.
  destruct route; [by intros call ?%elem_of_nil| | |];
    unfold handle, gamepass_details, user_inventory, creator_gamepasses;
    destruct (checkRateLimit (req_ip req) now m) as [[] ?];
    cbn [negb fst snd]; try (by intros call ?%elem_of_nil);
    try limit_cases req; try (by intros call ?%elem_of_nil);
    upstream_cases upstream; cbn [console calls];
    try (intros call ->%list_elem_of_singleton; by eexists);
    (split; [done|]); by do 2 eexists.
Qed.

(** X13: the quota belongs to the client, not to the endpoint or to the
    fate of the request.  Two requests from the same address to any two
    proxy endpoints, whatever their parameters, whatever the upstream
    answers and however the handlers end, leave the same map, the one
    [checkRateLimit] leaves for that address, and one is answered as over
    the quota exactly when the other is. *)
Theorem X13_quota_is_per_client (route1 route2 : Route) (now : Z)
    (upstream1 upstream2 : Outbound → AxiosResult) (req1 req2 : Request)
    (m : gmap string (list Z)) :
  proxy_route route1 → proxy_route route2 →
  req_ip req1 = req_ip req2 →
  counts (handle route1 now upstream1 req1 m)
  = (checkRateLimit (req_ip req1) now m).2
  ∧ counts (handle route2 now upstream2 req2 m)
    = counts (handle route1 now upstream1 req1 m)
  ∧ (handle route2 now upstream2 req2 m = rate_limited m
     ↔ handle route1 now upstream1 req1 m = rate_limited m).
Proof.
  intros H1 H2 Hip.
  rewrite !handle_counts, !decide_False, Hip by done.
  split; [done|]. split; [done|].
  rewrite !handle_rate_limited by done. by rewrite Hip.
Qed.

(** X13, witness: a details request that the upstream answers, and an
    inventory request whose limit cannot be computed. *)
Lemma X13_quota_is_per_client_witness :
  let req1 := request0 [("id", "123")] [] in
  let req2 := request0 [("userId", "999")]
                [("limit", QObject [("toString", QString "x")])] in
  counts (handle GamepassDetails T0 upstream_ok req1 ∅)
  = (checkRateLimit (req_ip req1) T0 ∅).2
  ∧ counts (handle UserInventory T0 upstream_404 req2 ∅)
    = counts (handle GamepassDetails T0 upstream_ok req1 ∅)
  ∧ (handle UserInventory T0 upstream_404 req2 ∅ = rate_limited ∅
     ↔ handle GamepassDetails T0 upstream_ok req1 ∅ = rate_limited ∅).
Proof.
  apply X13_quota_is_per_client; [discriminate | discriminate | reflexivity].
Defined.

(** X14: the server and the limiter.  Over a sequence of requests whose
    limits can all be computed, the map the server ends with is the one
    left by the run of [checkRateLimit] over the requests to proxy
    endpoints, in order, and a proxy request reaches the upstream exactly
    when its call of the limiter returned true. *)
Theorem X14_server_runs_the_limiter (upstream : Outbound → AxiosResult)
    (trace : list (Route * Request * Z)) (m : gmap string (list Z)) :
  Forall limit_converts trace →
  (serve upstream trace m).2 = (run (limiter_calls trace) m).2
  ∧ called <$> proxy_outcomes (zip trace (serve upstream trace m).1)
    = (run (limiter_calls trace) m).1.
Proof.
  revert m. induction trace as [|[[route req] now] trace IH];
    intros m Hconv; [done|].
  apply Forall_cons in Hconv as [Hc Hconv].
  rewrite serve_cons.
  rewrite handle_threw, (bool_decide_eq_true_2 _ Hc), andb_false_r.
  cbn [fst snd zip zip_with].
  unfold limiter_calls, proxy_requests, proxy_outcomes in *.
  rewrite !filter_cons. cbn [fst snd].
  destruct (IH (counts (handle route now upstream req m)) Hconv) as [IHm IHd].
  rewrite IHm. rewrite handle_counts in *.
  destruct (decide (route ≠ HealthCheck)) as [Hroute|Hroute].
  - rewrite !fmap_cons, run_cons. cbn [fst snd].
    rewrite IHd, handle_called, (bool_decide_eq_true_2 _ Hc), andb_true_r.
    by rewrite !decide_False by done.
  - apply dec_stable in Hroute as ->. by rewrite IHd.
Qed.

(** X14, witness: the 100 requests of [mixed_trace]. *)
Lemma X14_server_runs_the_limiter_witness :
  (serve upstream_ok mixed_trace ∅).2 = (run (limiter_calls mixed_trace) ∅).2
  ∧ called <$> proxy_outcomes
                 (zip mixed_trace (serve upstream_ok mixed_trace ∅).1)
    = (run (limiter_calls mixed_trace) ∅).1.
Proof.
  apply X14_server_runs_the_limiter.
  refine (bool_decide_unpack _ _). vm_compute. exact I.
Defined.

(** X15: a handler makes at most one outbound call, exactly one when the
    route is a proxy endpoint, the limiter admits and the limit can be
    computed, and every outbound call carries the header
    [User-Agent: RobloxGamepassProxy/1.0] and no other. *)
Theorem X15_one_call_with_user_agent (route : Route) (now : Z)
    (upstream : Outbound → AxiosResult) (req : Request)
    (m : gmap string (list Z)) :
  length (calls (handle route now upstream req m))
  = (if decide (proxy_route route
                ∧ (checkRateLimit (req_ip req) now m).1 = true
                ∧ limit_converts (route, req, now))
     then 1 else 0)%nat
  ∧ Forall (λ call, headers call = user_agent)
           (calls (handle route now upstream req m)).
Proof.
  assert (length (calls (handle route now upstream req m))
          = (if called (handle route now upstream req m) then 1 else 0)%nat
          ∧ Forall (λ call, headers call = user_agent)
                   (calls (handle route now upstream req m))) as [-> Hh].
  { destruct route; [by split| | |];
      unfold handle, gamepass_details, user_inventory, creator_gamepasses;
      destruct (checkRateLimit (req_ip req) now m) as [[] ?];
      cbn [negb fst snd]; try (by split);
      try limit_cases req; try (by split);
      upstream_cases upstream; by repeat constructor. }
  split; [|exact Hh]. rewrite handle_called. unfold proxy_route.
  destruct (decide (route = HealthCheck)) as [->|Hroute].
  - by rewrite decide_False by (intros [? _]; done).
  - destruct (checkRateLimit (req_ip req) now m).1; cbn [andb].
    + case_bool_decide.
      * by rewrite decide_True.
      * rewrite decide_False; [done|]. by intros (_ & _ & ?).
    + rewrite decide_False; [done|]. by intros (_ & ? & _).
Qed.

(** X16: an admitted request to the creator endpoint for the user [uid],
    whose limit is computed, calls the fixed creations URL with exactly
    the parameters [userId] (the path parameter), [assetType=34], that
    limit, the cursor (the empty string when there is none) and
    [isArchived=false]. *)
Theorem X16_creator_outbound (now : Z) (upstream : Outbound → AxiosResult)
    (req : Request) (m : gmap string (list Z)) (uid : string)
    (lim : number) :
  (checkRateLimit (req_ip req) now m).1 = true →
  req_params req !! "userId" = Some uid →
  effective_limit (req_query req !! "limit") = Normal lim →
  calls (handle CreatorGamepasses now upstream req m)
  = [{| url := "https://apis.roblox.com/toolbox-service/v1/creations/get-user-creations";
        params :=
          [("userId", JString uid);
           ("assetType", JNumber 34);
           ("limit", of_number lim);
           ("cursor", cursor_or_empty (req_query req !! "cursor"));
           ("isArchived", JBool false)];
        headers := user_agent |}].
Proof.
  intros Hadm Huid Hlim. limiter_cases req now m.
  unfold param_value. rewrite Huid, Hlim, js_or_cursor.
  by upstream_cases upstream.
Qed.

(** X16, witness: user 999 with [cursor=abc123&limit=500]. *)
Lemma X16_creator_outbound_witness :
  calls (handle CreatorGamepasses T0 upstream_ok
           (request0 [("userId", "999")]
              [("cursor", QString "abc123"); ("limit", QString "500")]) ∅)
  = [{| url := "https://apis.roblox.com/toolbox-service/v1/creations/get-user-creations";
        params := [("userId", JString "999"); ("assetType", JNumber 34);
                   ("limit", JNumber 100); ("cursor", JString "abc123");
                   ("isArchived", JBool false)];
        headers := user_agent |}].
Proof.
  refine (X16_creator_outbound T0 upstream_ok
            (request0 [("userId", "999")]
               [("cursor", QString "abc123"); ("limit", QString "500")])
            ∅ "999" (Finite 100) _ _ _).
  - vm_compute. reflexivity.
  - vm_compute. reflexivity.
  - vm_compute. reflexivity.
Defined.

(** X17: an admitted request for the details of the gamepass [id] calls the
    details URL with [id] inserted as it is, with no parameters; and the
    query string plays no part: two requests with the same address and path
    parameters have the same outcome. *)
Theorem X17_details_outbound (now : Z) (upstream : Outbound → AxiosResult)
    (req : Request) (m : gmap string (list Z)) (id : string) :
  (checkRateLimit (req_ip req) now m).1 = true →
  req_params req !! "id" = Some id →
  calls (handle GamepassDetails now upstream req m)
  = [{| url := ("https://apis.roblox.com/game-passes/v1/game-passes/"
                +:+ id +:+ "/details")%string;
        params := [];
        headers := user_agent |}]
  ∧ (∀ req', req_ip req' = req_ip req → req_params req' = req_params req →
             handle GamepassDetails now upstream req' m
             = handle GamepassDetails now upstream req m).
Proof.
  intros Hadm Hid. split.
  - limiter_cases req now m. unfold param_string. rewrite Hid.
    by upstream_cases upstream.
  - intros req' Hip Hparams. unfold handle, gamepass_details, param_string.
    by rewrite Hip, Hparams.
Qed.

(** X17, witness: a gamepass identifier that holds a path and a query. *)
Lemma X17_details_outbound_witness :
  let req := request0 [("id", "../x?y=1")] [("limit", QString "10")] in
  calls (handle GamepassDetails T0 upstream_ok req ∅)
  = [{| url := "https://apis.roblox.com/game-passes/v1/game-passes/../x?y=1/details";
        params := [];
        headers := user_agent |}]
  ∧ (∀ req', req_ip req' = req_ip req → req_params req' = req_params req →
             handle GamepassDetails T0 upstream_ok req' ∅
             = handle GamepassDetails T0 upstream_ok req ∅).
Proof.
  refine (X17_details_outbound T0 upstream_ok
            (request0 [("id", "../x?y=1")] [("limit", QString "10")]) ∅
            "../x?y=1" _ _).
  - vm_compute. reflexivity.
  - vm_compute. reflexivity.
Defined.

(** X18: the three proxy endpoints draw on one quota.  When a fresh server
    gets 100 requests from one address inside one window, spread over the
    proxy endpoints in any way, with limits that can be computed, all 100
    are served and reach the upstream, and the next request of that
    address inside the window, to whichever proxy endpoint and with
    whatever query, is answered 429 without a call and without a change to
    the map. *)
Theorem X18_quota_is_shared_by_the_endpoints
    (upstream : Outbound → AxiosResult) (trace : list (Route * Request * Z))
    (ip : string) (w : Z) (route : Route) (req : Request) (now : Z) :
  length trace = RATE_LIMIT →
  Forall (in_window_of ip w) trace →
  Forall limit_converts trace →
  in_window_of ip w (route, req, now) →
  length (serve upstream trace ∅).1 = RATE_LIMIT
  ∧ Forall (λ o, called o = true) (serve upstream trace ∅).1
  ∧ handle route now upstream req (serve upstream trace ∅).2
    = rate_limited (serve upstream trace ∅).2.
Proof.
  intros Hlen Htrace Hconv (Hroute & Hip & Hnow). cbn [fst snd] in *.
  destruct (serve_one_window upstream ip w trace [] ∅)
    as (Hserved & Hcalled & Hget);
    [done | done | done | done | simpl; lia |].
  split; [by rewrite Hserved|]. split; [exact Hcalled|]. simpl in Hget.
  assert (Forall (λ t, w ≤ t < w + RATE_WINDOW) trace.*2) as Htimes.
  { apply Forall_fmap. eapply Forall_impl; [exact Htrace|].
    by intros e (_ & _ & ?). }
  apply handle_rate_limited; [done|].
  rewrite checkRateLimit_reject; [done|]. rewrite Hip, Hget.
  rewrite filter_all_of_Forall.
  - rewrite length_fmap. lia.
  - eapply Forall_impl; [exact Htimes|]. intros x Hx.
    by apply (recent_same_window w).
Qed.

(** X18, witness: the 100 requests of [mixed_trace], then one more for an
    inventory at the same instant. *)
Lemma X18_quota_is_shared_by_the_endpoints_witness :
  length (serve upstream_ok mixed_trace ∅).1 = RATE_LIMIT
  ∧ Forall (λ o, called o = true) (serve upstream_ok mixed_trace ∅).1
  ∧ handle UserInventory T0 upstream_ok (request0 [("userId", "999")] [])
      (serve upstream_ok mixed_trace ∅).2
    = rate_limited (serve upstream_ok mixed_trace ∅).2.
Proof.
  apply (X18_quota_is_shared_by_the_endpoints upstream_ok mixed_trace ip0 T0).
  - reflexivity.
  - refine (bool_decide_unpack _ _). vm_compute. exact I.
  - refine (bool_decide_unpack _ _). vm_compute. exact I.
  - refine (bool_decide_unpack _ _). vm_compute. exact I.
Defined.

(** X19: rejected calls leave no trace.  The run of the admitted calls
    alone admits every one of them and ends with the same map as the whole
    run, so a client that keeps asking while it is blocked does not
    postpone the moment it is let in again. *)
Theorem X19_rejected_calls_leave_no_trace (calls : list (string * Z))
    (m : gmap string (list Z)) :
  run (admitted_calls calls m) m
  = (replicate (length (admitted_calls calls m)) true, (run calls m).2).
Proof.
  revert m. induction calls as [|[ip now] calls IH]; intros m; [done|].
  unfold admitted_calls in *. rewrite run_cons. cbn [fst snd zip zip_with].
  rewrite filter_cons. cbn [snd].
  destruct (checkRateLimit ip now m).1 eqn:Hdec.
  - rewrite decide_True by done. rewrite fmap_cons. cbn [fst length replicate].
    rewrite run_cons, Hdec, IH. done.
  - rewrite decide_False by done.
    apply checkRateLimit_false_inv in Hdec as [_ ->]. apply IH.
Qed.

(** X20: a [limit] that cannot be converted.  On the inventory and creator
    endpoints, when the limiter admits a request whose [limit] is an
    object with a key [toString], the handler throws a [TypeError] outside
    its [try]: the request has been recorded by the limiter, no outbound
    call is made, nothing is written to the console and no response is
    written. *)
Theorem X20_unconvertible_limit_throws (route : Route) (now : Z)
    (upstream : Outbound → AxiosResult) (req : Request)
    (m : gmap string (list Z)) (fields : list (string * qval)) :
  limit_route route →
  (checkRateLimit (req_ip req) now m).1 = true →
  req_query req !! "limit" = Some (QObject fields) →
  has_own "toString" fields = true →
  handle route now upstream req m
  = {| counts := (checkRateLimit (req_ip req) now m).2;
       ending := Throws TypeError;
       calls := [];
       console := [] |}.
Proof.
  intros [-> | ->] Hadm Hq Hown; limiter_cases req now m;
    unfold effective_limit, ToString; rewrite Hq; cbn [qToString];
    by rewrite Hown.
Qed.

(** X20, witness: [limit[toString]=x] on the inventory endpoint. *)
Lemma X20_unconvertible_limit_throws_witness :
  let req := request0 [("userId", "999")]
               [("limit", QObject [("toString", QString "x")])] in
  handle UserInventory T0 upstream_ok req ∅
  = {| counts := (checkRateLimit (req_ip req) T0 ∅).2;
       ending := Throws TypeError;
       calls := [];
       console := [] |}.
Proof.
  intros req.
  apply (X20_unconvertible_limit_throws UserInventory T0 upstream_ok req ∅
           [("toString", QString "x")]).
  - by left.
  - vm_compute. reflexivity.
  - vm_compute. reflexivity.
  - reflexivity.
Defined.
